(** * Marketplace monitor: deduplication store, notification dispatch,
      check cycle and monitor loop

    A shallow embedding of [storage.py], [notifications.py], [config.py] and
    the [MarketplaceMonitor] class of [monitor.py], followed by the properties
    the specification states about them.

    Modelling conventions.
    - Instants ([datetime.now()], [first_seen], [last_seen]) are integers
      counting microseconds from 1970-01-01T00:00:00.  The source stores them
      as ISO-8601 strings and compares the strings; for naive datetimes that
      layout is zero padded and of fixed width (the fraction is dropped only
      when it is zero), so the string order is the chronological order.  The
      limits of [datetime] (years 1 to 9999) and of [timedelta] show where the
      source computes with instants, in [cleanup].
    - The collaborators (clock, scraper, file system, Telegram bot, stop
      signal) are oracles of a [World], indexed by a counter [tick] that
      advances at every consultation, so two calls may answer differently.
    - Every exception of the model is an instance of Python's [Exception];
      signals outside that class (task cancellation, keyboard interrupt) are
      not modelled.
    - The storage lock is not modelled: one worker drives the monitor. *)

From stdpp Require Import base gmap sets list strings pretty.
From Stdlib Require Import ZArith Lia Ascii.

(** ** Data model *)

(** [notifications.Listing] *)
Record Listing := {
  listing_id : string;
  title : string;
  price : string;
  location : string;
  url : string;
  image_url : option string;
  description : option string
}.

(** [storage.ListingRecord]; the field names of [Listing] are taken, so the
    identity and title of a record carry the prefix [r_]. *)
Record ListingRecord := {
  r_listing_id : string;
  r_title : string;
  first_seen : Z;
  last_seen : Z;
  notified : bool
}.

(** [record.last_seen = now] *)
Definition set_last_seen (now : Z) (r : ListingRecord) : ListingRecord :=
  {| r_listing_id := r_listing_id r; r_title := r_title r;
     first_seen := first_seen r; last_seen := now; notified := notified r |}.

(** [config.Config], flattened: the fields of its four sections that the
    monitor reads. *)
Record Config := {
  telegram_enabled : bool;
  whatsapp_enabled : bool;
  keywords : list string;
  search_location : string;
  radius_miles : Z;
  min_price : option Z;
  max_price : option Z;
  category : string;
  check_interval_seconds : Z;
  max_retries : Z;
  retry_delay_seconds : Z;
  headless_browser : bool;
  log_level : string;
  cleanup_days : Z
}.

(** Exceptions, by the classes the handlers of the source tell apart. *)
Inductive exn :=
| IOError (msg : string)
| ImportError (msg : string)
| AttributeError (msg : string)
| OtherError (msg : string).

Definition is_IOError (e : exn) : bool :=
  match e with IOError _ => true | _ => false end.

Definition is_ImportError (e : exn) : bool :=
  match e with ImportError _ => true | _ => false end.

(** [OverflowError] is no class that a handler of the source names. *)
Definition OverflowError (msg : string) : exn := OtherError msg.

(** [str(e)] *)
Definition exn_str (e : exn) : string :=
  match e with
  | IOError m | ImportError m | AttributeError m | OtherError m => m
  end.

(** What a call into a collaborator does: returns, or raises. *)
Inductive answer := Done | Fails (e : exn).

(** The text handed to the transport: the formatted listing, or a status
    line.  The formatting of a listing is the transport's concern. *)
Inductive message :=
| ListingMessage (l : Listing)
| StatusMessage (text : string).

Inductive level := INFO | WARNING | ERROR.

(** What the program does to the outside, in order. *)
Inductive event :=
| EvLog (lv : level) (msg : string)
| EvSleep (seconds : Z)
| EvSearch (keyword : string)
| EvSendPhoto (l : Listing) (a : answer)
| EvSendMessage (m : message) (a : answer)
| EvNotify (l : Listing) (ok : bool)
| EvSave (snapshot : gmap string ListingRecord)
| EvScraperClose.

(** The collaborators. *)
Record World := {
  datetime_now : nat -> Z;
  scraper_search : nat -> string -> exn + list Listing;
  file_write : nat -> answer;
  telegram_bot : nat -> answer;
  bot_send_photo : nat -> Listing -> answer;
  bot_send_message : nat -> message -> answer;
  stop_signal : nat -> bool
}.

(** The mutable state of the process. *)
Record State := {
  _listings : gmap string ListingRecord;
  _running : bool;
  scraper : bool;
  _bot : bool;
  tick : nat
}.

Definition with_listings (m : gmap string ListingRecord) (s : State) : State :=
  {| _listings := m; _running := _running s; scraper := scraper s;
     _bot := _bot s; tick := tick s |}.

Definition with_running (b : bool) (s : State) : State :=
  {| _listings := _listings s; _running := b; scraper := scraper s;
     _bot := _bot s; tick := tick s |}.

Definition with_scraper (b : bool) (s : State) : State :=
  {| _listings := _listings s; _running := _running s; scraper := b;
     _bot := _bot s; tick := tick s |}.

Definition with_bot (b : bool) (s : State) : State :=
  {| _listings := _listings s; _running := _running s; scraper := scraper s;
     _bot := b; tick := tick s |}.

Definition next_tick (s : State) : State :=
  {| _listings := _listings s; _running := _running s; scraper := scraper s;
     _bot := _bot s; tick := S (tick s) |}.

(** ** Programs: state, exceptions and emitted events *)

Inductive result (A : Type) :=
| Ok (a : A)
| Raise (e : exn).
Arguments Ok {A} a.
Arguments Raise {A} e.

Record Outcome (A : Type) := MkOutcome {
  res : result A;
  post : State;
  events : list event
}.
Arguments MkOutcome {A} res post events.
Arguments res {A} o.
Arguments post {A} o.
Arguments events {A} o.

Definition M (A : Type) : Type := State -> Outcome A.

Definition ret {A} (a : A) : M A := fun s => MkOutcome (Ok a) s [].

Definition raise {A} (e : exn) : M A := fun s => MkOutcome (Raise e) s [].

Definition bind {A B} (c : M A) (k : A -> M B) : M B := fun s =>
  match c s with
  | MkOutcome (Ok a) s1 e1 =>
      match k a s1 with
      | MkOutcome r s2 e2 => MkOutcome r s2 (e1 ++ e2)
      end
  | MkOutcome (Raise e) s1 e1 => MkOutcome (Raise e) s1 e1
  end.

(** [try: c  except <class> as e: h e]; [h e = None] when [e] is not of the
    handled class, and the exception goes on. *)
Definition try_except {A} (c : M A) (h : exn -> option (M A)) : M A := fun s =>
  match c s with
  | MkOutcome (Ok a) s1 e1 => MkOutcome (Ok a) s1 e1
  | MkOutcome (Raise e) s1 e1 =>
      match h e with
      | Some k =>
          match k s1 with
          | MkOutcome r s2 e2 => MkOutcome r s2 (e1 ++ e2)
          end
      | None => MkOutcome (Raise e) s1 e1
      end
  end.

(** [try: c  finally: f] *)
Definition try_finally {A} (c : M A) (f : M unit) : M A := fun s =>
  match c s with
  | MkOutcome r s1 e1 =>
      match f s1 with
      | MkOutcome (Ok _) s2 e2 => MkOutcome r s2 (e1 ++ e2)
      | MkOutcome (Raise e) s2 e2 => MkOutcome (Raise e) s2 (e1 ++ e2)
      end
  end.

Declare Scope prog_scope.
Delimit Scope prog_scope with prog.
Bind Scope prog_scope with M.
Notation "'let*' x := c 'in' k" := (bind c (fun x => k))
  (at level 10, x name, c at level 100, k at level 200) : prog_scope.
Notation "c >> k" := (bind c (fun _ => k))
  (at level 100, k at level 200, right associativity) : prog_scope.
Open Scope prog_scope.

Definition get : M State := fun s => MkOutcome (Ok s) s [].
Definition modify (f : State -> State) : M unit :=
  fun s => MkOutcome (Ok tt) (f s) [].
Definition emit (e : event) : M unit := fun s => MkOutcome (Ok tt) s [e].

(** Consult an oracle of the world at the current tick, and advance. *)
Definition ask {A} (oracle : nat -> A) : M A :=
  fun s => MkOutcome (Ok (oracle (tick s))) (next_tick s) [].

Definition log (lv : level) (msg : string) : M unit := emit (EvLog lv msg).

(** [await asyncio.sleep(seconds)] *)
Definition sleep (seconds : Z) : M unit := emit (EvSleep seconds).

(** [for x in l: body x] *)
Fixpoint for_each {A} (l : list A) (body : A -> M unit) : M unit :=
  match l with
  | [] => ret tt
  | x :: rest => body x >> for_each rest body
  end.

Section Program.

Variable W : World.
Variable cfg : Config.

(** ** storage.py *)

(** [ListingStorage._save]: the whole map is written; only [IOError] is
    handled. *)
Definition _save : M unit :=
  try_except
    (let* s := get in
     let* a := ask (file_write W) in
     match a with
     | Done => emit (EvSave (_listings s))
     | Fails e => raise e
     end)
    (fun e =>
       if is_IOError e
       then Some (log ERROR ("Error saving storage file: " +:+ exn_str e))
       else None).

(** [ListingStorage.has_seen] *)
Definition has_seen (listing_id : string) : M bool :=
  let* s := get in
  ret (bool_decide (listing_id ∈ dom (_listings s))).

(** [ListingStorage.mark_seen]; the source's default [notified=True] is
    passed by the caller. *)
Definition mark_seen (listing_id title : string) (notified : bool) : M unit :=
  let* now := ask (datetime_now W) in
  let* s := get in
  (match _listings s !! listing_id with
   | Some r =>
       modify (with_listings (<[listing_id := set_last_seen now r]> (_listings s)))
   | None =>
       modify (with_listings
         (<[listing_id := {| r_listing_id := listing_id; r_title := title;
                             first_seen := now; last_seen := now;
                             notified := notified |}]> (_listings s)))
   end) >>
  _save.

(** [ListingStorage.get_new_listings] *)
Definition get_new_listings (listing_ids : gset string) : M (gset string) :=
  let* s := get in
  ret (listing_ids ∖ dom (_listings s)).

(** [timedelta(days=1)] in microseconds *)
Definition DAY : Z := 86400000000.

(** [datetime.min] and [datetime.max]: 0001-01-01T00:00:00 and
    9999-12-31T23:59:59.999999 *)
Definition datetime_min : Z := -62135596800000000.
Definition datetime_max : Z := 253402300799999999.

(** [now - timedelta(days=days)].  [timedelta] takes its argument as a C int
    and refuses more than 999999999 days, and the difference has to be an
    instant of [datetime]; each refusal is an [OverflowError]. *)
Definition minus_days (now days : Z) : exn + Z :=
  if bool_decide (days < -2147483648 \/ 2147483647 < days)%Z
  then inl (OverflowError "Python int too large to convert to C int")
  else if bool_decide (999999999 < Z.abs days)%Z
  then inl (OverflowError
              ("days=" +:+ pretty days +:+ "; must have magnitude <= 999999999"))
  else
    let cutoff := (now - days * DAY)%Z in
    if bool_decide (datetime_min <= cutoff <= datetime_max)%Z
    then inr cutoff
    else inl (OverflowError "date value out of range").

(** [ListingStorage.cleanup]; the cutoff is computed before the store is
    read. *)
Definition cleanup (days : Z) : M nat :=
  let* now := ask (datetime_now W) in
  match minus_days now days with
  | inl e => raise e
  | inr cutoff =>
      let* s := get in
      let old_listings :=
        (map_to_list
           (filter (fun kv => (last_seen kv.2 < cutoff)%Z) (_listings s))).*1 in
      modify (with_listings (foldr delete (_listings s) old_listings)) >>
      (match old_listings with
       | [] => ret tt
       | _ :: _ =>
           _save >>
           log INFO ("Cleaned up " +:+ pretty (length old_listings) +:+
                     " old listings")
       end) >>
      ret (length old_listings)
  end.

(** [ListingStorage.clear] *)
Definition clear : M unit :=
  modify (with_listings ∅) >>
  _save >>
  log INFO "Cleared all stored listings".

(** ** config.py *)

(** [Config.validate] *)
Definition validate : list string :=
  let errors := [] in
  let errors :=
    if negb (telegram_enabled cfg) && negb (whatsapp_enabled cfg)
    then errors ++ ["No notification method configured. Enable Telegram or WhatsApp."]
    else errors in
  let errors :=
    match keywords cfg with
    | [] => errors ++ ["No search keywords configured. Set SEARCH_KEYWORDS env var."]
    | _ :: _ => errors
    end in
  errors.

Definition nl : string := String (Ascii.ascii_of_nat 10) EmptyString.

(** [sep.join(l)] *)
Fixpoint join (sep : string) (l : list string) : string :=
  match l with
  | [] => ""
  | [x] => x
  | x :: rest => x +:+ sep +:+ join sep rest
  end.

(** [x or default] on a string *)
Definition str_or (x default : string) : string :=
  if decide (x = "") then default else x.

(** [Config.__str__] *)
Definition Config_str : string :=
  join nl [
    "=== Facebook Marketplace Monitor Configuration ===";
    "";
    "📱 Notifications:";
    "   Telegram: " +:+ (if telegram_enabled cfg then "✅ Enabled" else "❌ Disabled");
    "   WhatsApp:  " +:+ (if whatsapp_enabled cfg then "✅ Enabled" else "❌ Disabled");
    "";
    "🔍 Search:";
    "   Keywords: " +:+ str_or (join ", " (keywords cfg)) "None";
    "   Location: " +:+ str_or (search_location cfg) "Not set";
    "   Radius: " +:+ pretty (radius_miles cfg) +:+ " miles";
    "   Price: $" +:+
      (match min_price cfg with
       | Some p => if decide (p = 0%Z) then "0" else pretty p
       | None => "0"
       end) +:+ " - $" +:+
      (match max_price cfg with
       | Some p => if decide (p = 0%Z) then "∞" else pretty p
       | None => "∞"
       end);
    "   Category: " +:+ str_or (category cfg) "All";
    "";
    "⚙️ Monitor:";
    "   Check Interval: " +:+ pretty (check_interval_seconds cfg) +:+ "s";
    "   Headless Browser: " +:+ (if headless_browser cfg then "True" else "False");
    "   Log Level: " +:+ log_level cfg
  ].

(** ** notifications.py *)

(** [TelegramNotifier._get_bot]: the bot is built on first use. *)
Definition _get_bot : M unit :=
  let* s := get in
  if _bot s then ret tt
  else
    try_except
      (let* a := ask (telegram_bot W) in
       match a with
       | Done => modify (with_bot true)
       | Fails e => raise e
       end)
      (fun e =>
         if is_ImportError e
         then Some (log ERROR "python-telegram-bot not installed. Run: pip install python-telegram-bot" >>
                    raise e)
         else None).

(** [bot.send_photo(...)] *)
Definition send_photo (l : Listing) : M unit :=
  let* a := ask (fun t => bot_send_photo W t l) in
  emit (EvSendPhoto l a) >>
  match a with
  | Done => ret tt
  | Fails e => raise e
  end.

(** [bot.send_message(...)] *)
Definition send_message (m : message) : M unit :=
  let* a := ask (fun t => bot_send_message W t m) in
  emit (EvSendMessage m a) >>
  match a with
  | Done => ret tt
  | Fails e => raise e
  end.

(** [if listing.image_url:] *)
Definition has_image (l : Listing) : bool :=
  match image_url l with
  | Some u => negb (bool_decide (u = ""))
  | None => false
  end.

(** [TelegramNotifier.send_listing] *)
Definition send_listing (listing : Listing) : M bool :=
  try_except
    (_get_bot >>
     let message := ListingMessage listing in
     (if has_image listing
      then
        try_except
          (send_photo listing)
          (fun e => Some (
             log WARNING ("Failed to send image, sending text only: " +:+ exn_str e) >>
             send_message message))
      else send_message message) >>
     log INFO ("Telegram notification sent for listing: " +:+ listing_id listing) >>
     ret true)
    (fun e => Some (
       log ERROR ("Failed to send Telegram notification: " +:+ exn_str e) >>
       ret false)).

(** [TelegramNotifier.send_message] *)
Definition telegram_send_message (text : string) : M bool :=
  try_except
    (_get_bot >>
     send_message (StatusMessage text) >>
     ret true)
    (fun e => Some (
       log ERROR ("Failed to send Telegram message: " +:+ exn_str e) >>
       ret false)).

(** [NotificationManager.notify_listing]; [self._telegram] is set exactly
    when Telegram is enabled.  The call and its result are recorded as an
    [EvNotify] event. *)
Definition notify_listing (listing : Listing) : M bool :=
  let* ok :=
    (if telegram_enabled cfg then send_listing listing else ret false) in
  emit (EvNotify listing ok) >>
  ret ok.

(** The loop of [NotificationManager.notify_listings] *)
Fixpoint notify_loop (listings : list Listing) (success_count : nat) : M nat :=
  match listings with
  | [] => ret success_count
  | listing :: rest =>
      let* ok := notify_listing listing in
      let success_count := if ok then S success_count else success_count in
      sleep 1 >>
      notify_loop rest success_count
  end.

(** [NotificationManager.notify_listings] *)
Definition notify_listings (listings : list Listing) : M nat :=
  notify_loop listings 0.

(** [NotificationManager.send_status_message] *)
Definition send_status_message (message : string) : M bool :=
  if telegram_enabled cfg then telegram_send_message message else ret false.

(** ** monitor.py *)

(** [self.scraper.search(query=keyword, ...)]; before a scraper is set the
    attribute access fails. *)
Definition scraper_search_call (keyword : string) : M (list Listing) :=
  let* s := get in
  if scraper s then
    emit (EvSearch keyword) >>
    let* r := ask (fun t => scraper_search W t keyword) in
    match r with
    | inl e => raise e
    | inr listings => ret listings
    end
  else raise (AttributeError "'NoneType' object has no attribute 'search'").

(** The first loop of [_search_all_keywords] *)
Fixpoint search_loop (kws : list string) (all_listings : list Listing)
  : M (list Listing) :=
  match kws with
  | [] => ret all_listings
  | keyword :: rest =>
      let* all_listings :=
        try_except
          (let* listings := scraper_search_call keyword in
           sleep 2 >>
           ret (all_listings ++ listings))
          (fun e => Some (
             log ERROR ("Error searching for '" +:+ keyword +:+ "': " +:+ exn_str e) >>
             ret all_listings)) in
      search_loop rest all_listings
  end.

(** The second loop of [_search_all_keywords]: deduplicate by listing id *)
Fixpoint unique_loop (all_listings : list Listing) (seen_ids : gset string)
    (unique_listings : list Listing) : list Listing :=
  match all_listings with
  | [] => unique_listings
  | listing :: rest =>
      if decide (listing_id listing ∈ seen_ids)
      then unique_loop rest seen_ids unique_listings
      else unique_loop rest ({[listing_id listing]} ∪ seen_ids)
                       (unique_listings ++ [listing])
  end.

(** [MarketplaceMonitor._search_all_keywords] *)
Definition _search_all_keywords : M (list Listing) :=
  let* all_listings := search_loop (keywords cfg) [] in
  ret (unique_loop all_listings ∅ []).

(** [MarketplaceMonitor._process_listings] *)
Definition _process_listings (listings : list Listing) : M nat :=
  match listings with
  | [] => ret 0
  | _ :: _ =>
      let listing_ids : gset string := list_to_set (listing_id <$> listings) in
      let* new_ids := get_new_listings listing_ids in
      if decide (new_ids = ∅)
      then log INFO "No new listings found" >> ret 0
      else
        let new_listings := filter (fun l => listing_id l ∈ new_ids) listings in
        log INFO ("Found " +:+ pretty (length new_listings) +:+ " new listings!") >>
        let* success_count := notify_listings new_listings in
        for_each new_listings
          (fun listing => mark_seen (listing_id listing) (title listing) true) >>
        ret success_count
  end.

(** The body of the [try] block of [check_once] *)
Definition check_cycle : M nat :=
  let* listings := _search_all_keywords in
  log INFO ("Found " +:+ pretty (length listings) +:+ " total listings") >>
  let* notification_count := _process_listings listings in
  cleanup (cleanup_days cfg) >>
  ret notification_count.

(** [MarketplaceMonitor.check_once] *)
Definition check_once : M nat :=
  log INFO "Starting marketplace check..." >>
  try_except
    check_cycle
    (fun e => Some (
       log ERROR ("Error during check: " +:+ exn_str e) >>
       ret 0)).

(** [MarketplaceMonitor.stop] *)
Definition stop : M unit := modify (with_running false).

(** [MarketplaceMonitor.shutdown] *)
Definition shutdown : M unit :=
  modify (with_running false) >>
  log INFO "Shutting down..." >>
  let* s := get in
  (if scraper s then emit EvScraperClose else ret tt) >>
  send_status_message "🛑 Marketplace Monitor Stopped" >>
  log INFO "Shutdown complete".

(** A stop request (the signal handler calls [stop]) becomes visible to the
    loop when it next reads [self._running]. *)
Definition poll_stop : M unit :=
  let* sig := ask (stop_signal W) in
  if sig then stop else ret tt.

Section Loop.

(** [run] calls the method [self.check_once]; the loop is stated over any
    procedure in its place. *)
Variable check : M nat.

(** One pass through the body of [while self._running:] in [run]; the
    result is the new [retry_count]. *)
Definition loop_iteration (retry_count : Z) : M Z :=
  let* r :=
    try_except
      (let* notification_count := check in
       (if bool_decide (0 < notification_count)
        then log INFO ("Sent " +:+ pretty notification_count +:+ " notifications")
        else ret tt) >>
       let retry_count := 0%Z in
       ret (false, retry_count))
      (fun e => Some (
         let retry_count := (retry_count + 1)%Z in
         log ERROR ("Check failed (attempt " +:+ pretty retry_count +:+ "): " +:+ exn_str e) >>
         let* retry_count :=
           (if bool_decide (max_retries cfg ≤ retry_count)%Z
            then
              log ERROR "Max retries reached, waiting before next attempt" >>
              sleep (retry_delay_seconds cfg) >>
              ret 0%Z
            else ret retry_count) in
         sleep (Z.min (30 * retry_count) 300) >>
         ret (true, retry_count))) in
  if r.1 then ret r.2
  else
    log INFO ("Next check in " +:+ pretty (check_interval_seconds cfg) +:+ " seconds...") >>
    sleep (check_interval_seconds cfg) >>
    ret r.2.

(** [while self._running: ...], unrolled [fuel] times.  The result is [true]
    when the loop has ended and [false] when it is still going after [fuel]
    passes. *)
Fixpoint monitor_loop (fuel : nat) (retry_count : Z) : M bool :=
  match fuel with
  | O => ret false
  | S fuel =>
      poll_stop >>
      let* s := get in
      if _running s
      then
        let* retry_count := loop_iteration retry_count in
        monitor_loop fuel retry_count
      else ret true
  end.

(** [try: while ...  finally: await self.shutdown()]; [shutdown] does not
    run while the loop is still going. *)
Definition loop_then_shutdown (fuel : nat) : M bool := fun s =>
  match res (monitor_loop fuel 0 s) with
  | Ok false => monitor_loop fuel 0 s
  | _ => try_finally (monitor_loop fuel 0) shutdown s
  end.

(** [MarketplaceMonitor.run]; the result is [true] when [run] has returned
    and [false] when its loop is still going after [fuel] passes. *)
Definition run_with (fuel : nat) : M bool :=
  modify (with_running true) >>
  log INFO "Starting Facebook Marketplace Monitor..." >>
  log INFO Config_str >>
  let errors := validate in
  match errors with
  | _ :: _ =>
      log ERROR "Configuration errors:" >>
      for_each errors (fun error => log ERROR ("  - " +:+ error)) >>
      ret true
  | [] =>
      modify (with_scraper true) >>
      send_status_message
        ("🚀 Marketplace Monitor Started" +:+ nl +:+
         "📍 Keywords: " +:+ join ", " (keywords cfg) +:+ nl +:+
         "⏰ Check interval: " +:+ pretty (check_interval_seconds cfg) +:+ "s") >>
      loop_then_shutdown fuel
  end.

End Loop.

Definition run (fuel : nat) : M bool := run_with check_once fuel.

End Program.

(** ** Readings of an event list *)

(** The calls of [notify_listing], with their results *)
Definition notifications (evs : list event) : list (Listing * bool) :=
  omap (fun e => match e with EvNotify l ok => Some (l, ok) | _ => None end) evs.

(** The durations slept *)
Definition sleeps (evs : list event) : list Z :=
  omap (fun e => match e with EvSleep d => Some d | _ => None end) evs.

(** The searches sent to the scraper *)
Definition searches (evs : list event) : list string :=
  omap (fun e => match e with EvSearch k => Some k | _ => None end) evs.

(** How many notifications went out *)
Definition successes (evs : list event) : nat :=
  length (filter (fun p => p.2 = true) (notifications evs)).

(** The file system never fails a write with anything but an [IOError]. *)
Definition writes_handled (W : World) : Prop :=
  forall t e, file_write W t = Fails e -> is_IOError e = true.

(** ** Notions used in the statements *)

(** What [mark_seen] leaves in memory *)
Definition upsert (now : Z) (id ttl : string) (n : bool)
    (m : gmap string ListingRecord) : gmap string ListingRecord :=
  match m !! id with
  | Some r => <[id := set_last_seen now r]> m
  | None =>
      <[id := {| r_listing_id := id; r_title := ttl; first_seen := now;
                 last_seen := now; notified := n |}]> m
  end.

(** The ids [cleanup] deletes *)
Definition old_ids (cutoff : Z) (m : gmap string ListingRecord) : list string :=
  (map_to_list (filter (fun kv => (last_seen kv.2 < cutoff)%Z) m)).*1.

(** [delivered l evs]: among [evs] the bot accepted the photo or the text of
    listing [l] *)
Definition delivered (l : Listing) (evs : list event) : Prop :=
  EvSendPhoto l Done ∈ evs \/ EvSendMessage (ListingMessage l) Done ∈ evs.

(** Merging by first occurrence, without the accumulators of [unique_loop] *)
Fixpoint first_by_id (all_listings : list Listing) (seen_ids : gset string)
  : list Listing :=
  match all_listings with
  | [] => []
  | listing :: rest =>
      if decide (listing_id listing ∈ seen_ids)
      then first_by_id rest seen_ids
      else listing :: first_by_id rest ({[listing_id listing]} ∪ seen_ids)
  end.

(** What the searches of one [_search_all_keywords] return, term by term,
    when the first of them is consultation [t] of the world: every search is
    one consultation, and a search that raises contributes nothing *)
Fixpoint term_results (W : World) (kws : list string) (t : nat)
  : list (list Listing) :=
  match kws with
  | [] => []
  | keyword :: rest =>
      match scraper_search W t keyword with
      | inr listings => listings
      | inl _ => []
      end :: term_results W rest (S t)
  end.

(** The searches and sleeps that [_search_all_keywords] owes for the
    keywords [kws] from consultation [t] on: one search for each keyword, in
    order, and a sleep of two seconds after each search that returned *)
Fixpoint search_pacing (W : World) (kws : list string) (t : nat) : list event :=
  match kws with
  | [] => []
  | keyword :: rest =>
      EvSearch keyword ::
      match scraper_search W t keyword with
      | inr _ => [EvSleep 2]
      | inl _ => []
      end ++ search_pacing W rest (S t)
  end.

(** The searches and the sleeps among the events, in order *)
Definition searches_and_sleeps (evs : list event) : list event :=
  omap (fun e => match e with
                 | EvSearch _ | EvSleep _ => Some e
                 | _ => None
                 end) evs.

(** [same_id l x]: [x] carries the id of [l] *)
Definition same_id (l x : Listing) : bool :=
  bool_decide (listing_id x = listing_id l).

(** The listings of a batch that the store has no record of *)
Definition unseen (m : gmap string ListingRecord) (ls : list Listing)
  : list Listing :=
  filter (fun l => listing_id l ∉ dom m) ls.

(** [marked_since W m1 m2]: a record of [m2] is the record [m1] had for its
    id, or it was stamped by a reading of the clock and is flagged as
    notified or has the flag that [m1] had for its id *)
Definition marked_since (W : World) (m1 m2 : gmap string ListingRecord) : Prop :=
  forall id r, m2 !! id = Some r ->
    m1 !! id = Some r \/
    ((exists t, last_seen r = datetime_now W t) /\
     (notified r = true \/
      exists r1, m1 !! id = Some r1 /\ notified r1 = notified r)).

(** [within_retention W days t1 t2]: from its consultation [t1] to the last
    one before [t2], no reading of the clock is more than [days] later than
    an earlier one.  For the ticks of one check: the check takes no longer
    than the retention time. *)
Definition within_retention (W : World) (days : Z) (t1 t2 : nat) : Prop :=
  forall t t', t1 <= t -> t <= t' -> t' < t2 ->
    (datetime_now W t' - datetime_now W t <= days * DAY)%Z.

(** [stamped_between W t1 t2 m1 m2]: a record of [m2] is the record [m1] had
    for its id, or its [last_seen] is a reading of the clock from
    consultation [t1] to the last one before [t2] *)
Definition stamped_between (W : World) (t1 t2 : nat)
    (m1 m2 : gmap string ListingRecord) : Prop :=
  forall id r, m2 !! id = Some r ->
    m1 !! id = Some r \/
    exists t, t1 <= t /\ t < t2 /\ last_seen r = datetime_now W t.

(** The claim C1 in the words of the specification: an item that a check
    tried to notify without success is seen after the check, and a second
    check on the same source data does not try its id again. *)
Definition attempted_at_most_once (W : World) (cfg : Config) (s : State)
  : Prop :=
  let o := check_once W cfg s in
  forall l, EvNotify l false ∈ events o ->
    res (has_seen (listing_id l) (post o)) = Ok true /\
    forall l' ok, EvNotify l' ok ∈ events (check_once W cfg (post o)) ->
      listing_id l' <> listing_id l.

(** The sleeps of [fuel] passes of the loop when every check fails, as the
    retry policy of [run] prescribes them: the counter goes up by one and the
    loop sleeps [min(30 * counter, 300)]; when the counter reaches
    [max_retries] the loop sleeps [retry_delay_seconds], resets the counter,
    and the sleep for the reset counter lasts [min(30 * 0, 300) = 0]. *)
Fixpoint backoff_schedule (retries delay : Z) (fuel : nat) (retry_count : Z)
  : list Z :=
  match fuel with
  | O => []
  | S fuel =>
      if bool_decide (retries ≤ retry_count + 1)%Z
      then delay :: 0%Z :: backoff_schedule retries delay fuel 0
      else Z.min (30 * (retry_count + 1)) 300 ::
           backoff_schedule retries delay fuel (retry_count + 1)
  end.

(** The claim C7 in the words of the specification: the record a cycle
    creates for a listing is flagged as notified exactly when a notification
    for that listing went out. *)
Definition notified_iff_sent (W : World) (cfg : Config) (s : State) : Prop :=
  let o := check_once W cfg s in
  forall l r,
    _listings s !! listing_id l = None ->
    _listings (post o) !! listing_id l = Some r ->
    (notified r = true <-> (l, true) ∈ notifications (events o)).

(** [wp c Q s]: the result, the final state and the events of running [c]
    from [s] satisfy [Q] *)
Definition wp {A} (c : M A) (Q : result A -> State -> list event -> Prop)
    (s : State) : Prop :=
  Q (res (c s)) (post (c s)) (events (c s)).
Arguments wp : simpl never.

(** ** notifications.py: escaping

    Python strings are modelled by their UTF-8 bytes.  The characters that
    [_escape_markdown] looks for are ASCII, and no byte of a longer UTF-8
    sequence is an ASCII byte, so replacing on bytes is replacing on
    characters. *)

(** [text.replace(char, new)] for a one-character [char] *)
Fixpoint replace_char (char : Ascii.ascii) (new : string) (text : string) : string :=
  match text with
  | EmptyString => EmptyString
  | String c rest =>
      if decide (c = char)
      then new +:+ replace_char char new rest
      else String c (replace_char char new rest)
  end.

Definition backslash : Ascii.ascii := Ascii.ascii_of_nat 92.

(** The list [special_chars] of [_escape_markdown] *)
Definition special_chars : list Ascii.ascii :=
  ["_"; "*"; "["; "]"; "("; ")"; "~"; "`"; ">"; "#"; "+"; "-"; "="; "|";
   "{"; "}"; "."; "!"]%char.

(** [Listing._escape_markdown] *)
Definition _escape_markdown (text : string) : string :=
  foldl
    (fun text char =>
       replace_char char (String backslash (String char EmptyString)) text)
    text special_chars.

(** One pass over [text] that puts a backslash before each character of
    [chars] *)
Fixpoint escape_pass (chars : list Ascii.ascii) (text : string) : string :=
  match text with
  | EmptyString => EmptyString
  | String c rest =>
      if decide (c ∈ chars)
      then String backslash (String c (escape_pass chars rest))
      else String c (escape_pass chars rest)
  end.

(** How often the characters of [chars] occur in [text] *)
Fixpoint count_chars (chars : list Ascii.ascii) (text : string) : nat :=
  match text with
  | EmptyString => 0
  | String c rest =>
      (if decide (c ∈ chars) then 1 else 0) + count_chars chars rest
  end.

(** ** scraper.py: the search URL *)

(** The bytes [urllib.parse.quote] never escapes: letters, digits and
    [_.-~] *)
Definition always_safe (c : Ascii.ascii) : bool :=
  let n := Ascii.nat_of_ascii c in
  (65 <=? n) && (n <=? 90) || (97 <=? n) && (n <=? 122) ||
  (48 <=? n) && (n <=? 57) ||
  Ascii.eqb c "_" || Ascii.eqb c "." || Ascii.eqb c "-" || Ascii.eqb c "~".

Definition hex_digit (n : nat) : Ascii.ascii :=
  nth n (String.list_ascii_of_string "0123456789ABCDEF") "0"%char.

(** [urllib.parse.quote_plus] on one byte *)
Definition quote_byte (c : Ascii.ascii) : string :=
  if always_safe c then String c EmptyString
  else if Ascii.eqb c " " then "+"
  else
    let n := Ascii.nat_of_ascii c in
    String "%" (String (hex_digit (n / 16)) (String (hex_digit (n mod 16))
      EmptyString)).

(** [urllib.parse.quote_plus(text)], as [urlencode] calls it (no extra safe
    characters) *)
Fixpoint quote_plus (text : string) : string :=
  match text with
  | EmptyString => EmptyString
  | String c rest => quote_byte c +:+ quote_plus rest
  end.

(** [urllib.parse.urlencode(params)] for string keys and values *)
Definition urlencode (params : list (string * string)) : string :=
  join "&" ((fun kv => quote_plus kv.1 +:+ "=" +:+ quote_plus kv.2) <$> params).

(** [FacebookMarketplaceScraper.BASE_URL] *)
Definition BASE_URL : string := "https://www.facebook.com/marketplace".

(** The dictionary [params] of [_build_search_url], in insertion order *)
Definition search_params (query : string) (min_price max_price : option Z)
  : list (string * string) :=
  let params :=
    [("query", query); ("sortBy", "creation_time_descend"); ("exact", "false")] in
  let params :=
    match min_price with
    | Some p => params ++ [("minPrice", pretty p)]
    | None => params
    end in
  let params :=
    match max_price with
    | Some p => params ++ [("maxPrice", pretty p)]
    | None => params
    end in
  params.

(** [FacebookMarketplaceScraper._build_search_url]; its debug log line is
    left out. *)
Definition _build_search_url (query location : string)
    (min_price max_price : option Z) (radius_miles : Z) (category : string)
  : string :=
  let base :=
    if decide (category = "") then BASE_URL +:+ "/search"
    else BASE_URL +:+ "/" +:+ category in
  base +:+ "?" +:+ urlencode (search_params query min_price max_price).

(** The inverse of [quote_plus], used to state that it loses nothing *)
Definition hex_value (c : Ascii.ascii) : nat :=
  let n := Ascii.nat_of_ascii c in
  if (48 <=? n) && (n <=? 57) then n - 48 else n - 55.

Fixpoint unquote_plus (text : string) : string :=
  match text with
  | EmptyString => EmptyString
  | String c rest =>
      if Ascii.eqb c "%" then
        match rest with
        | String h (String l rest') =>
            String (Ascii.ascii_of_nat (16 * hex_value h + hex_value l))
                   (unquote_plus rest')
        | _ => String c (unquote_plus rest)
        end
      else if Ascii.eqb c "+" then String " "%char (unquote_plus rest)
      else String c (unquote_plus rest)
  end.

(** The characters that [quote_plus] can put out *)
Definition url_safe (c : Ascii.ascii) : bool :=
  always_safe c || Ascii.eqb c "+" || Ascii.eqb c "%".

(** ** Further readings *)

(** The calls into the bot *)
Definition transport (evs : list event) : list event :=
  omap (fun e => match e with
                 | EvSendPhoto _ _ | EvSendMessage _ _ => Some e
                 | _ => None
                 end) evs.

(** [answered a]: the call returned *)
Definition answered (a : answer) : bool :=
  match a with Done => true | Fails _ => false end.

(** [from_scraper W kws l]: some search for a keyword of [kws] returned [l] *)
Definition from_scraper (W : World) (kws : list string) (l : Listing) : Prop :=
  exists t kw ls, kw ∈ kws /\ scraper_search W t kw = inr ls /\ l ∈ ls.

(** The bot is there, or the world hands one out *)
Definition bot_available (W : World) (s : State) : Prop :=
  _bot s = true \/ telegram_bot W (tick s) = Done.

(** ** Concrete worlds *)

Definition bike : Listing :=
  {| listing_id := "A"; title := "Bike"; price := "$10"; location := "Denver";
     url := "https://example.org/A"; image_url := None; description := None |}.

Definition lamp : Listing :=
  {| listing_id := "B"; title := "Lamp"; price := "$5"; location := "Denver";
     url := "https://example.org/B";
     image_url := Some "https://example.org/B.jpg"; description := None |}.

(** A world whose clock advances [step] microseconds per reading from
    [start], whose scraper returns the bike, the lamp and the bike again for
    every keyword, whose disk answers [disk] and whose bot answers [send]. *)
Definition world0 (start step : Z) (disk send : answer) : World :=
  {| datetime_now := fun t => (start + step * Z.of_nat t)%Z;
     scraper_search := fun _ _ => inr [bike; lamp; bike];
     file_write := fun _ => disk;
     telegram_bot := fun _ => Done;
     bot_send_photo := fun _ _ => send;
     bot_send_message := fun _ _ => send;
     stop_signal := fun _ => false |}.

Definition cfg0 (kws : list string) (retries days : Z) : Config :=
  {| telegram_enabled := true; whatsapp_enabled := false; keywords := kws;
     search_location := ""; radius_miles := 40; min_price := None;
     max_price := None; category := ""; check_interval_seconds := 300;
     max_retries := retries; retry_delay_seconds := 60;
     headless_browser := true; log_level := "INFO"; cleanup_days := days |}.

Definition state0 (m : gmap string ListingRecord) : State :=
  {| _listings := m; _running := false; scraper := true; _bot := false;
     tick := 0 |}.

Definition record0 (id : string) (seen : Z) (n : bool) : ListingRecord :=
  {| r_listing_id := id; r_title := "Old"; first_seen := seen;
     last_seen := seen; notified := n |}.

(** [world0] with the stop signal up from the start *)
Definition world_stopped : World :=
  {| datetime_now := fun t => (1000 + Z.of_nat t)%Z;
     scraper_search := fun _ _ => inr [bike; lamp; bike];
     file_write := fun _ => Done;
     telegram_bot := fun _ => Done;
     bot_send_photo := fun _ _ => Done;
     bot_send_message := fun _ _ => Done;
     stop_signal := fun _ => true |}.

(** [world0] without the Telegram package: no bot can be built *)
Definition world_no_bot : World :=
  {| datetime_now := fun t => (1000 + Z.of_nat t)%Z;
     scraper_search := fun _ _ => inr [bike; lamp; bike];
     file_write := fun _ => Done;
     telegram_bot := fun _ => Fails (ImportError "No module named telegram");
     bot_send_photo := fun _ _ => Done;
     bot_send_message := fun _ _ => Done;
     stop_signal := fun _ => false |}.

(** [world0] with a scraper that times out on the keyword lamp *)
Definition world_flaky : World :=
  {| datetime_now := fun t => (1000 + Z.of_nat t)%Z;
     scraper_search := fun _ keyword =>
       if decide (keyword = "lamp") then inl (OtherError "timed out")
       else inr [bike; lamp; bike];
     file_write := fun _ => Done;
     telegram_bot := fun _ => Done;
     bot_send_photo := fun _ _ => Done;
     bot_send_message := fun _ _ => Done;
     stop_signal := fun _ => false |}.

(** A configuration that notifies over WhatsApp only *)
Definition cfg_whatsapp (kws : list string) : Config :=
  {| telegram_enabled := false; whatsapp_enabled := true; keywords := kws;
     search_location := ""; radius_miles := 40; min_price := None;
     max_price := None; category := ""; check_interval_seconds := 300;
     max_retries := 5; retry_delay_seconds := 60;
     headless_browser := true; log_level := "INFO"; cleanup_days := 7 |}.

(** The procedures are unfolded by name, not by simplification. *)
Arguments _save : simpl never.
Arguments mark_seen : simpl never.
Arguments cleanup : simpl never.
Arguments _get_bot : simpl never.
Arguments send_photo : simpl never.
Arguments send_message : simpl never.
Arguments send_listing : simpl never.
Arguments telegram_send_message : simpl never.
Arguments notify_listing : simpl never.
Arguments send_status_message : simpl never.
Arguments scraper_search_call : simpl never.
Arguments _search_all_keywords : simpl never.
Arguments _process_listings : simpl never.
Arguments check_cycle : simpl never.
Arguments check_once : simpl never.
Arguments shutdown : simpl never.
Arguments poll_stop : simpl never.
Arguments loop_iteration : simpl never.

(** ** Basic facts about programs *)

Lemma notifications_app (e1 e2 : list event) :
  notifications (e1 ++ e2) = notifications e1 ++ notifications e2.
Proof. apply omap_app. Qed.

Lemma sleeps_app (e1 e2 : list event) : sleeps (e1 ++ e2) = sleeps e1 ++ sleeps e2.
Proof. apply omap_app. Qed.

Lemma searches_app (e1 e2 : list event) :
  searches (e1 ++ e2) = searches e1 ++ searches e2.
Proof. apply omap_app. Qed.

Lemma elem_of_notifications (l : Listing) (ok : bool) (evs : list event) :
  (l, ok) ∈ notifications evs <-> EvNotify l ok ∈ evs.
Proof.
  unfold notifications. rewrite list_elem_of_omap. split.
  - intros (e & He & Hm). destruct e; simplify_eq. done.
  - intros He. exists (EvNotify l ok). done.
Qed.

Section StorageFacts.

Variable W : World.

(** [_save], computed *)
Lemma save_eq (s : State) :
  _save W s =
    match file_write W (tick s) with
    | Done => MkOutcome (Ok tt) (next_tick s) [EvSave (_listings s)]
    | Fails e =>
        if is_IOError e
        then MkOutcome (Ok tt) (next_tick s)
               [EvLog ERROR ("Error saving storage file: " +:+ exn_str e)]
        else MkOutcome (Raise e) (next_tick s) []
    end.
Proof.
  unfold _save, try_except, bind, ask, get. cbn.
  destruct (file_write W (tick s)) as [|e]; cbn; [done|].
  destruct (is_IOError e); done.
Qed.

Lemma save_post (s : State) : post (_save W s) = next_tick s.
Proof.
  rewrite save_eq. destruct (file_write W (tick s)) as [|e]; [done|].
  destruct (is_IOError e); done.
Qed.

Lemma save_res (s : State) :
  res (_save W s) =
    match file_write W (tick s) with
    | Done => Ok tt
    | Fails e => if is_IOError e then Ok tt else Raise e
    end.
Proof.
  rewrite save_eq. destruct (file_write W (tick s)) as [|e]; [done|].
  destruct (is_IOError e); done.
Qed.

Lemma save_silent (s : State) : notifications (events (_save W s)) = [].
Proof.
  rewrite save_eq.
  destruct (file_write W (tick s)) as [|e]; [done|].
  destruct (is_IOError e); done.
Qed.

Lemma save_handled (s : State) : writes_handled W -> res (_save W s) = Ok tt.
Proof.
  intros HW. rewrite save_res. specialize (HW (tick s)).
  destruct (file_write W (tick s)) as [|e]; [done|]. by rewrite (HW e).
Qed.

Lemma mark_seen_post (id ttl : string) (n : bool) (s : State) :
  post (mark_seen W id ttl n s) =
    next_tick (with_listings
      (upsert (datetime_now W (tick s)) id ttl n (_listings s)) (next_tick s)).
Proof.
  unfold mark_seen, bind, ask, get, modify, upsert. cbn.
  destruct (_listings s !! id); cbn;
    match goal with |- context [_save W ?s'] =>
      pose proof (save_post s') as Hp; destruct (_save W s') as [r s2 e2]
    end; cbn in *; by subst.
Qed.

Lemma mark_seen_res (id ttl : string) (n : bool) (s : State) :
  res (mark_seen W id ttl n s) =
    match file_write W (S (tick s)) with
    | Done => Ok tt
    | Fails e => if is_IOError e then Ok tt else Raise e
    end.
Proof.
  unfold mark_seen, bind, ask, get, modify. cbn.
  destruct (_listings s !! id); cbn;
    match goal with |- context [_save W ?s'] =>
      pose proof (save_res s') as Hp; destruct (_save W s') as [r s2 e2]
    end; cbn in *; by subst.
Qed.

Lemma mark_seen_silent (id ttl : string) (n : bool) (s : State) :
  notifications (events (mark_seen W id ttl n s)) = [].
Proof.
  unfold mark_seen, bind, ask, get, modify. cbn.
  destruct (_listings s !! id); cbn;
    match goal with |- context [_save W ?s'] =>
      pose proof (save_silent s') as Hp; destruct (_save W s') as [r s2 e2]
    end; cbn in *; done.
Qed.

Lemma upsert_dom (now : Z) (id ttl : string) (n : bool)
    (m : gmap string ListingRecord) :
  dom (upsert now id ttl n m) = {[id]} ∪ dom m.
Proof. unfold upsert. destruct (m !! id); by rewrite dom_insert_L. Qed.

Lemma upsert_lookup_ne (now : Z) (id ttl k : string) (n : bool)
    (m : gmap string ListingRecord) :
  k ≠ id -> upsert now id ttl n m !! k = m !! k.
Proof.
  intros Hk. unfold upsert. destruct (m !! id); by rewrite lookup_insert_ne.
Qed.

End StorageFacts.

(** ** The deduplication store *)

Section StorageClaims.

Variable W : World.

(** C2. [get_new_listings] returns its argument minus the ids that have a
    record: an id is in the answer exactly when it is a candidate and
    [has_seen] denies it.  The call changes nothing and emits nothing. *)
Theorem get_new_listings_is_difference (S : gset string) (s : State) :
  let o := get_new_listings S s in
  post o = s /\ events o = [] /\
  res o = Ok (S ∖ dom (_listings s)) /\
  forall id, id ∈ S ∖ dom (_listings s) <->
    id ∈ S /\ _listings s !! id = None /\ res (has_seen id s) = Ok false.
Proof.
  cbn. split; [done|]. split; [done|]. split; [done|].
  intros id. rewrite elem_of_difference, not_elem_of_dom. split.
  - intros [HS Hnone]. split; [done|]. split; [done|].
    unfold has_seen, bind, get, ret. cbn. f_equal.
    apply bool_decide_eq_false. by apply not_elem_of_dom.
  - intros (HS & Hnone & _). done.
Qed.

(** C3. [mark_seen] is an upsert.  A second call for the same id adds no
    record; when the id was absent before the first call, the record after
    the second call has the first call's instant as [first_seen], the second
    call's as [last_seen], and the first call's title and notified flag; on
    an id already present a call changes [last_seen] only, and no call
    touches another id. *)
Theorem mark_seen_upsert (id t1 t2 : string) (n1 n2 : bool) (s : State) :
  let s1 := post (mark_seen W id t1 n1 s) in
  let s2 := post (mark_seen W id t2 n2 s1) in
  let now1 := datetime_now W (tick s) in
  let now2 := datetime_now W (tick s1) in
  size (_listings s2) = size (_listings s1) /\
  dom (_listings s2) = dom (_listings s1) /\
  (_listings s !! id = None ->
     size (_listings s1) = S (size (_listings s)) /\
     _listings s2 !! id =
       Some {| r_listing_id := id; r_title := t1; first_seen := now1;
               last_seen := now2; notified := n1 |}) /\
  (forall r, _listings s !! id = Some r ->
     size (_listings s1) = size (_listings s) /\
     _listings s1 !! id =
       Some {| r_listing_id := r_listing_id r; r_title := r_title r;
               first_seen := first_seen r; last_seen := now1;
               notified := notified r |}) /\
  (forall k, k ≠ id -> _listings s1 !! k = _listings s !! k).
Proof.
  intros s1 s2 now1 now2. subst s1 s2 now1 now2.
  rewrite !mark_seen_post. cbn.
  set (m := _listings s).
  set (a := datetime_now W (tick s)).
  set (b := datetime_now W (S (S (tick s)))).
  assert (Hin : is_Some (upsert a id t1 n1 m !! id)).
  { unfold upsert. destruct (m !! id); rewrite lookup_insert_eq; eauto. }
  split; [|split; [|split; [|split]]].
  - destruct Hin as [r Hr]. unfold upsert at 1. rewrite Hr.
    by rewrite map_size_insert_Some.
  - rewrite upsert_dom. apply elem_of_dom in Hin. set_solver.
  - intros Hnone. unfold upsert. rewrite Hnone. split.
    + by rewrite map_size_insert_None.
    + rewrite lookup_insert_eq. by rewrite lookup_insert_eq.
  - intros r Hr. unfold upsert. rewrite Hr. split.
    + apply map_size_insert_Some. eauto.
    + by rewrite lookup_insert_eq.
  - intros k Hk. by apply upsert_lookup_ne.
Qed.

Lemma minus_days_inr (now days cutoff : Z) :
  minus_days now days = inr cutoff <->
    (Z.abs days <= 999999999)%Z /\ cutoff = (now - days * DAY)%Z /\
    (datetime_min <= cutoff <= datetime_max)%Z.
Proof.
  unfold minus_days.
  repeat case_bool_decide; (split; [intros [= Hc]|intros (Hd & Hc & Hr)]);
    subst; try done; try lia.
Qed.



Lemma cleanup_post_listings (days : Z) (s : State) :
  _listings (post (cleanup W days s)) =
    match minus_days (datetime_now W (tick s)) days with
    | inl _ => _listings s
    | inr cutoff => foldr delete (_listings s) (old_ids cutoff (_listings s))
    end.
Proof.
  unfold cleanup, bind, ask, get, modify, ret, raise, log, emit, old_ids. cbn.
  destruct (minus_days _ _) as [e|cutoff]; cbn; [done|].
  destruct (map_to_list _).*1 as [|k ks] eqn:E; cbn; [done|].
  match goal with |- context [_save W ?s'] =>
    pose proof (save_post W s') as Hp; destruct (_save W s') as [[[]|e] s2 e2]
  end; cbn in *; by subst.
Qed.

Lemma cleanup_post_sub (days : Z) (s : State) (id : string) (r : ListingRecord) :
  _listings (post (cleanup W days s)) !! id = Some r ->
  _listings s !! id = Some r.
Proof.
  rewrite cleanup_post_listings. destruct (minus_days _ _); [done|].
  by intros [_ Hr]%lookup_foldr_delete_Some.
Qed.


Lemma cleanup_silent (days : Z) (s : State) :
  notifications (events (cleanup W days s)) = [].
Proof.
  unfold cleanup, bind, ask, get, modify, ret, raise, log, emit. cbn.
  destruct (minus_days _ _) as [e|cutoff]; cbn; [done|].
  destruct (map_to_list _).*1 as [|k ks] eqn:E; cbn; [done|].
  rewrite save_eq. cbn.
  destruct (file_write W (S (tick s))) as [|e]; cbn; [done|].
  destruct (is_IOError e); done.
Qed.

Lemma elem_of_old_ids (cutoff : Z) (m : gmap string ListingRecord) (k : string) :
  k ∈ old_ids cutoff m <-> exists r, m !! k = Some r /\ (last_seen r < cutoff)%Z.
Proof.
  unfold old_ids. rewrite list_elem_of_fmap. split.
  - intros ([k' r] & -> & Hin). apply elem_of_map_to_list in Hin.
    apply map_lookup_filter_Some in Hin. cbn in *. eauto.
  - intros (r & Hr & Hlt). exists (k, r). split; [done|].
    apply elem_of_map_to_list. by apply map_lookup_filter_Some.
Qed.

Lemma cleanup_keeps (cutoff : Z) (m : gmap string ListingRecord) :
  foldr delete m (old_ids cutoff m) =
    filter (fun kv => ¬ (last_seen kv.2 < cutoff)%Z) m.
Proof.
  apply map_eq. intros k. apply option_eq. intros r.
  rewrite lookup_foldr_delete_Some, map_lookup_filter_Some, elem_of_old_ids.
  cbn. split.
  - intros [Hno Hr]. split; [done|]. intros Hlt. apply Hno. eauto.
  - intros [Hr Hno]. split; [|done]. intros (r' & Hr' & Hlt). simplify_eq. done.
Qed.

Lemma old_ids_length (cutoff : Z) (m : gmap string ListingRecord) :
  length (old_ids cutoff m) + size (foldr delete m (old_ids cutoff m)) = size m.
Proof.
  rewrite cleanup_keeps. unfold old_ids.
  rewrite length_fmap, length_map_to_list.
  rewrite <- map_size_disj_union by apply map_disjoint_filter_complement.
  by rewrite map_filter_union_complement.
Qed.


End StorageClaims.

(** ** Rules for the weakest-precondition reading of programs *)

Section WpRules.

Context {A B : Type}.
Implicit Types (Q : result A -> State -> list event -> Prop).

Lemma wp_mono (c : M A) Q Q' (s : State) :
  wp c Q s -> (forall r s' e, Q r s' e -> Q' r s' e) -> wp c Q' s.
Proof. unfold wp. auto. Qed.

Lemma wp_ret (a : A) Q (s : State) : Q (Ok a) s [] -> wp (ret a) Q s.
Proof. done. Qed.

Lemma wp_raise (e : exn) Q (s : State) : Q (Raise e) s [] -> wp (raise e) Q s.
Proof. done. Qed.

Lemma wp_ask (oracle : nat -> A) Q (s : State) :
  Q (Ok (oracle (tick s))) (next_tick s) [] -> wp (ask oracle) Q s.
Proof. done. Qed.

Lemma wp_bind (c : M A) (k : A -> M B)
    (Q : result B -> State -> list event -> Prop) (s : State) :
  wp c (fun r s1 e1 =>
          match r with
          | Ok a => wp (k a) (fun r2 s2 e2 => Q r2 s2 (e1 ++ e2)) s1
          | Raise e => Q (Raise e) s1 e1
          end) s ->
  wp (bind c k) Q s.
Proof.
  unfold wp, bind. destruct (c s) as [[a|e] s1 e1]; cbn; [|done].
  destruct (k a s1) as [r s2 e2]; done.
Qed.

Lemma wp_try_except (c : M A) (h : exn -> option (M A)) Q (s : State) :
  wp c (fun r s1 e1 =>
          match r with
          | Ok a => Q (Ok a) s1 e1
          | Raise e =>
              match h e with
              | Some k => wp k (fun r2 s2 e2 => Q r2 s2 (e1 ++ e2)) s1
              | None => Q (Raise e) s1 e1
              end
          end) s ->
  wp (try_except c h) Q s.
Proof.
  unfold wp, try_except. destruct (c s) as [[a|e] s1 e1]; cbn; [done|].
  destruct (h e) as [k|]; [|done]. destruct (k s1) as [r s2 e2]; done.
Qed.

Lemma wp_try_finally (c : M A) (f : M unit) Q (s : State) :
  wp c (fun r s1 e1 =>
          wp f (fun r2 s2 e2 =>
                  match r2 with
                  | Ok _ => Q r s2 (e1 ++ e2)
                  | Raise e => Q (Raise e) s2 (e1 ++ e2)
                  end) s1) s ->
  wp (try_finally c f) Q s.
Proof.
  unfold wp, try_finally. destruct (c s) as [r s1 e1]; cbn.
  destruct (f s1) as [[u|e] s2 e2]; done.
Qed.

End WpRules.

Lemma wp_and {A} (c : M A) (Q1 Q2 : result A -> State -> list event -> Prop)
    (s : State) :
  wp c Q1 s -> wp c Q2 s -> wp c (fun r s' e => Q1 r s' e /\ Q2 r s' e) s.
Proof. unfold wp. auto. Qed.

Lemma wp_self {A} (c : M A) (s : State) :
  wp c (fun r s' e => r = res (c s) /\ s' = post (c s) /\ e = events (c s)) s.
Proof. done. Qed.

Lemma wp_get (Q : result State -> State -> list event -> Prop) (s : State) :
  Q (Ok s) s [] -> wp get Q s.
Proof. done. Qed.

Lemma wp_modify (f : State -> State)
    (Q : result unit -> State -> list event -> Prop) (s : State) :
  Q (Ok tt) (f s) [] -> wp (modify f) Q s.
Proof. done. Qed.

Lemma wp_emit (ev : event)
    (Q : result unit -> State -> list event -> Prop) (s : State) :
  Q (Ok tt) s [ev] -> wp (emit ev) Q s.
Proof. done. Qed.

(** One step through a program: a rule for the head construct, or a case
    split on the value the program branches on. *)
Ltac wp_step :=
  lazymatch goal with
  | |- wp (bind _ _) _ _ => apply wp_bind
  | |- wp (try_except _ _) _ _ => apply wp_try_except
  | |- wp (try_finally _ _) _ _ => apply wp_try_finally
  | |- wp (ret _) _ _ => apply wp_ret
  | |- wp (raise _) _ _ => apply wp_raise
  | |- wp (ask _) _ _ => apply wp_ask
  | |- wp get _ _ => apply wp_get
  | |- wp (modify _) _ _ => apply wp_modify
  | |- wp (emit _) _ _ => apply wp_emit
  | |- wp (log _ _) _ _ => apply wp_emit
  | |- wp (sleep _) _ _ => apply wp_emit
  | |- wp (if ?b then _ else _) _ _ => destruct b eqn:?
  | |- wp (match ?x with _ => _ end) _ _ => destruct x eqn:?
  | |- match (if ?b then _ else _) with _ => _ end => destruct b eqn:?
  end; cbn beta iota.

Ltac wp_steps := repeat wp_step.

(** ** The notification dispatcher *)

(** Decide [delivered] and [notifications] on an explicit event list. *)
Ltac solve_events :=
  cbn [app]; unfold delivered;
  rewrite ?elem_of_cons, ?elem_of_nil;
  first [ reflexivity | done | intuition (first [congruence | done]) ].

Section NotificationFacts.

Variable W : World.
Variable cfg : Config.

Lemma send_listing_spec (l : Listing) (s : State) :
  wp (send_listing W l)
    (fun r s' e =>
       exists ok, r = Ok ok /\ notifications e = [] /\
         _listings s' = _listings s /\ (ok = true <-> delivered l e)) s.
Proof.
  unfold send_listing, _get_bot, send_photo, send_message.
  wp_steps.
  all: try (exists true; (split; [reflexivity|]); (split; [reflexivity|]);
    (split; [reflexivity|]); solve_events).
  all: exists false; (split; [reflexivity|]); (split; [reflexivity|]);
    (split; [reflexivity|]); solve_events.
Qed.

Lemma notify_listing_spec (l : Listing) (s : State) :
  wp (notify_listing W cfg l)
    (fun r s' e =>
       exists ok, r = Ok ok /\ notifications e = [(l, ok)] /\
         _listings s' = _listings s /\ (ok = true <-> delivered l e)) s.
Proof.
  unfold notify_listing. wp_steps.
  - eapply wp_mono; [apply send_listing_spec|]. cbn beta.
    intros r s1 e1 (ok & -> & Hn & Hst & Hok). wp_steps.
    exists ok. split; [done|]. rewrite notifications_app, Hn.
    split; [done|]. split; [done|]. rewrite Hok. unfold delivered.
    rewrite !elem_of_app, !elem_of_cons, !elem_of_nil. intuition congruence.
  - exists false. split; [done|]. split; [done|]. split; [done|]. solve_events.
Qed.

Lemma successes_app (e1 e2 : list event) :
  successes (e1 ++ e2) = successes e1 + successes e2.
Proof.
  unfold successes. by rewrite notifications_app, filter_app, length_app.
Qed.

Lemma notify_loop_spec (ls : list Listing) (c : nat) (s : State) :
  wp (notify_loop W cfg ls c)
    (fun r s' e =>
       (notifications e).*1 = ls /\ r = Ok (c + successes e) /\
       _listings s' = _listings s) s.
Proof.
  revert c s. induction ls as [|l ls IH]; intros c s; cbn [notify_loop].
  - wp_steps. split; [done|]. split; [|done]. f_equal. unfold successes. cbn. lia.
  - wp_step. eapply wp_mono; [apply notify_listing_spec|]. cbn beta.
    intros r s1 e1 (ok & -> & Hn & Hst & _). wp_steps.
    eapply wp_mono; [apply IH|]. cbn beta.
    intros r s2 e2 (Hn2 & -> & Hst2).
    assert (Hs : successes e1 = if ok then 1 else 0).
    { unfold successes. rewrite Hn. by destruct ok. }
    rewrite !successes_app, !notifications_app, Hn, Hs. cbn.
    split; [by rewrite Hn2|]. split; [|congruence]. f_equal.
    change (successes [EvSleep 1]) with 0. destruct ok; lia.
Qed.

(** C9. [notify_listings] calls [notify_listing] once for each item, in
    order, whatever the earlier items did; it does not raise and its result
    is the number of calls that returned true.  [notify_listing] itself does
    not raise: its result is true exactly when the bot accepted the photo or
    the text of that listing, and every failure of the channel makes it
    false. *)
Theorem notify_listings_counts_successes (ls : list Listing) (s : State) :
  let o := notify_listings W cfg ls s in
  (notifications (events o)).*1 = ls /\
  res o = Ok (successes (events o)) /\
  forall (l : Listing) (s' : State),
    let o1 := notify_listing W cfg l s' in
    exists ok, res o1 = Ok ok /\ notifications (events o1) = [(l, ok)] /\
      (ok = true <-> delivered l (events o1)).
Proof.
  cbn zeta. destruct (notify_loop_spec ls 0 s) as (H1 & H2 & _).
  split; [exact H1|]. split; [exact H2|].
  intros l s'. destruct (notify_listing_spec l s') as (ok & ? & ? & _ & ?).
  eauto.
Qed.

End NotificationFacts.
(** ** The check cycle *)

Lemma unique_loop_first_by_id (all : list Listing) (seen : gset string)
    (acc : list Listing) :
  unique_loop all seen acc = acc ++ first_by_id all seen.
Proof.
  revert seen acc. induction all as [|x all IH]; intros seen acc; cbn.
  - by rewrite app_nil_r.
  - destruct (decide (listing_id x ∈ seen)); [apply IH|].
    rewrite IH. by rewrite <- app_assoc.
Qed.

Lemma elem_of_first_by_id (all : list Listing) (seen : gset string) (l : Listing) :
  l ∈ first_by_id all seen <->
    (listing_id l ∉ seen) /\ List.find (same_id l) all = Some l.
Proof.
  revert seen. induction all as [|x all IH]; intros seen; cbn.
  - rewrite elem_of_nil. naive_solver.
  - unfold same_id at 1.
    destruct (decide (listing_id x ∈ seen)) as [Hin|Hnin].
    + rewrite IH. case_bool_decide as Hid.
      * split; [intros [Hl _]; congruence|].
        intros [Hl _]. congruence.
      * done.
    + rewrite elem_of_cons, IH. case_bool_decide as Hid.
      * split.
        -- intros [->|[Hl _]]; [done|]. set_solver.
        -- intros [Hl ?]. left. congruence.
      * split.
        -- intros [->|[Hl Hf]]; [done|]. split; [set_solver|done].
        -- intros [Hl Hf]. right. split; [set_solver|done].
Qed.

Lemma first_by_id_NoDup (all : list Listing) (seen : gset string) :
  NoDup (listing_id <$> first_by_id all seen).
Proof.
  revert seen. induction all as [|x all IH]; intros seen; cbn.
  - constructor.
  - destruct (decide (listing_id x ∈ seen)); [apply IH|].
    cbn. constructor; [|apply IH].
    rewrite list_elem_of_fmap. intros (y & Hy & Hin).
    apply elem_of_first_by_id in Hin as [Hin _]. set_solver.
Qed.

Lemma first_by_id_sublist (all : list Listing) (seen : gset string) :
  first_by_id all seen `sublist_of` all.
Proof.
  revert seen. induction all as [|x all IH]; intros seen; cbn; [done|].
  destruct (decide (listing_id x ∈ seen)).
  - by apply sublist_cons.
  - by apply sublist_skip.
Qed.

Lemma marked_since_refl (W : World) (m : gmap string ListingRecord) :
  marked_since W m m.
Proof. intros id r Hr. by left. Qed.

Lemma marked_since_trans (W : World) (m1 m2 m3 : gmap string ListingRecord) :
  marked_since W m1 m2 -> marked_since W m2 m3 -> marked_since W m1 m3.
Proof.
  intros H12 H23 id r Hr.
  destruct (H23 id r Hr) as [Hr2|[Ht [Hn|(r2 & Hr2 & Hn2)]]].
  - by apply H12.
  - right. split; [done|]. by left.
  - right. split; [done|].
    destruct (H12 id r2 Hr2) as [Hr1|[_ [Hn1|(r1 & Hr1 & Hn1)]]].
    + right. eauto.
    + left. congruence.
    + right. exists r1. split; [done|congruence].
Qed.

Lemma marked_since_upsert (W : World) (t : nat) (id ttl : string)
    (m : gmap string ListingRecord) :
  marked_since W m (upsert (datetime_now W t) id ttl true m).
Proof.
  intros k r. unfold upsert. destruct (m !! id) as [r0|] eqn:E.
  - destruct (decide (k = id)) as [->|Hne].
    + rewrite lookup_insert_eq. intros [= <-]. right.
      split; [by exists t|]. right. eauto.
    + rewrite lookup_insert_ne by done. intros Hr. by left.
  - destruct (decide (k = id)) as [->|Hne].
    + rewrite lookup_insert_eq. intros [= <-]. right.
      split; [by exists t|]. by left.
    + rewrite lookup_insert_ne by done. intros Hr. by left.
Qed.

Lemma marked_since_delete (W : World) (m : gmap string ListingRecord)
    (ks : list string) :
  marked_since W m (foldr delete m ks).
Proof.
  intros k r Hr. apply lookup_foldr_delete_Some in Hr as [_ Hr]. by left.
Qed.

Lemma filter_ext_elem {A} (P Q : A -> Prop) `{!forall x, Decision (P x)}
    `{!forall x, Decision (Q x)} (l : list A) :
  (forall x, x ∈ l -> P x <-> Q x) -> filter P l = filter Q l.
Proof.
  induction l as [|x l IH]; intros Hext; [done|].
  rewrite !filter_cons. rewrite IH by (intros y Hy; apply Hext; by right).
  destruct (decide (P x)) as [HP|HP], (decide (Q x)) as [HQ|HQ]; try done.
  - destruct HQ. apply Hext; [by left|done].
  - destruct HP. apply Hext; [by left|done].
Qed.

Lemma filter_none {A} (P : A -> Prop) `{!forall x, Decision (P x)} (l : list A) :
  (forall x, x ∈ l -> ~ P x) -> filter P l = [].
Proof.
  induction l as [|x l IH]; intros Hno; [done|].
  rewrite filter_cons. destruct (decide (P x)) as [HP|HP].
  - destruct (Hno x); [by left|done].
  - apply IH. intros y Hy. apply Hno. by right.
Qed.

Section CycleFacts.

Variable W : World.
Variable cfg : Config.

Lemma scraper_search_call_spec (kw : string) (s : State) :
  wp (scraper_search_call W kw)
    (fun r s' e => notifications e = [] /\ _listings s' = _listings s) s.
Proof. unfold scraper_search_call. wp_steps; done. Qed.

Lemma search_loop_spec (kws : list string) (acc : list Listing) (s : State) :
  wp (search_loop W kws acc)
    (fun r s' e =>
       (exists all, r = Ok all) /\ notifications e = [] /\
       _listings s' = _listings s) s.
Proof.
  revert acc s. induction kws as [|kw kws IH]; intros acc s; cbn [search_loop].
  - wp_steps. eauto.
  - wp_step. wp_step. wp_step.
    eapply wp_mono; [apply scraper_search_call_spec|]. cbn beta.
    intros r s1 e1 [Hn Hst]. destruct r as [ls|e]; cbn beta iota.
    + wp_steps. eapply wp_mono; [apply IH|]. cbn beta.
      intros r s2 e2 (Hall & Hn2 & Hst2). split; [done|].
      rewrite !notifications_app, Hn, Hn2. split; [done|congruence].
    + wp_steps. eapply wp_mono; [apply IH|]. cbn beta.
      intros r s2 e2 (Hall & Hn2 & Hst2). split; [done|].
      rewrite !notifications_app, Hn, Hn2. split; [done|congruence].
Qed.

Lemma search_all_keywords_spec (s : State) :
  wp (_search_all_keywords W cfg)
    (fun r s' e =>
       (exists all, r = Ok (first_by_id all ∅)) /\ notifications e = [] /\
       _listings s' = _listings s) s.
Proof.
  unfold _search_all_keywords. wp_step.
  eapply wp_mono; [apply search_loop_spec|]. cbn beta.
  intros r s1 e1 ([all ->] & Hn & Hst). wp_steps.
  rewrite unique_loop_first_by_id. cbn. rewrite app_nil_r, Hn. eauto.
Qed.

Lemma searches_and_sleeps_app (e1 e2 : list event) :
  searches_and_sleeps (e1 ++ e2) = searches_and_sleeps e1 ++ searches_and_sleeps e2.
Proof. apply omap_app. Qed.

(** The search loop with a scraper, exactly *)
Lemma search_loop_exact (kws : list string) (acc : list Listing) (s : State) :
  scraper s = true ->
  wp (search_loop W kws acc)
    (fun r s' e =>
       r = Ok (acc ++ concat (term_results W kws (tick s))) /\
       searches_and_sleeps e = search_pacing W kws (tick s)) s.
Proof.
  revert acc s. induction kws as [|kw kws IH]; intros acc s Hscr;
    cbn [search_loop term_results search_pacing concat].
  - wp_steps. by rewrite app_nil_r.
  - unfold scraper_search_call. wp_steps; try congruence.
    all: (eapply wp_mono; [apply IH; cbn; assumption|]); cbn beta;
      intros r s2 e2 [-> Hp]; cbn [tick next_tick] in *;
      repeat match goal with
             | H : scraper_search _ _ _ = _ |- _ => rewrite H
             end;
      rewrite ?searches_and_sleeps_app, Hp; cbn;
      by rewrite ?app_nil_r, <- ?app_assoc.
Qed.

Lemma search_all_keywords_exact (s : State) :
  scraper s = true ->
  res (_search_all_keywords W cfg s) =
    Ok (unique_loop (concat (term_results W (keywords cfg) (tick s))) ∅ []) /\
  searches_and_sleeps (events (_search_all_keywords W cfg s)) =
    search_pacing W (keywords cfg) (tick s).
Proof.
  intros Hscr. change (wp (_search_all_keywords W cfg) (fun r s' e =>
    r = Ok (unique_loop (concat (term_results W (keywords cfg) (tick s))) ∅ []) /\
    searches_and_sleeps e = search_pacing W (keywords cfg) (tick s)) s).
  unfold _search_all_keywords. wp_step.
  eapply wp_mono; [apply search_loop_exact; exact Hscr|]. cbn beta.
  intros r s1 e1 [-> Hp]. wp_steps. by rewrite app_nil_r.
Qed.

Lemma mark_seen_spec (id ttl : string) (n : bool) (s : State) :
  wp (mark_seen W id ttl n)
    (fun r s' e =>
       notifications e = [] /\
       _listings s' = upsert (datetime_now W (tick s)) id ttl n (_listings s) /\
       (writes_handled W -> r = Ok tt)) s.
Proof.
  unfold wp. split; [apply mark_seen_silent|]. split.
  - by rewrite mark_seen_post.
  - intros HW. rewrite mark_seen_res. specialize (HW (S (tick s))).
    destruct (file_write W (S (tick s))) as [|e]; [done|]. by rewrite (HW e).
Qed.

(** The marking loop of [_process_listings] *)
Lemma mark_all_spec (new : list Listing) (s : State) :
  wp (for_each new (fun l => mark_seen W (listing_id l) (title l) true))
    (fun r s' e =>
       notifications e = [] /\
       marked_since W (_listings s) (_listings s') /\
       dom (_listings s) ⊆ dom (_listings s') /\
       (writes_handled W ->
          r = Ok tt /\
          dom (_listings s') = list_to_set (listing_id <$> new) ∪ dom (_listings s))) s.
Proof.
  revert s. induction new as [|l new IH]; intros s; cbn [for_each].
  - wp_steps. split; [done|]. split; [apply marked_since_refl|].
    split; [done|]. intros _. split; [done|]. set_solver.
  - wp_step. eapply wp_mono; [apply mark_seen_spec|]. cbn beta.
    intros r s1 e1 (Hn & Hst & Hr).
    assert (Hk : marked_since W (_listings s) (_listings s1)).
    { rewrite Hst. apply marked_since_upsert. }
    assert (Hd : dom (_listings s1) = {[listing_id l]} ∪ dom (_listings s)).
    { rewrite Hst. apply upsert_dom. }
    destruct r as [[]|e]; cbn beta iota.
    + eapply wp_mono; [apply IH|]. cbn beta.
      intros r s2 e2 (Hn2 & Hk2 & Hd2 & Hr2).
      rewrite notifications_app, Hn, Hn2. split; [done|].
      split; [by eapply marked_since_trans|]. split; [set_solver|].
      intros HW. destruct (Hr2 HW) as [-> Hd2']. split; [done|].
      rewrite Hd2', Hd. set_solver.
    + split; [done|]. split; [done|]. split; [set_solver|].
      intros HW. by specialize (Hr HW).
Qed.

Lemma process_listings_spec (ls : list Listing) (s : State) :
  wp (_process_listings W cfg ls)
    (fun r s' e =>
       (notifications e).*1 = unseen (_listings s) ls /\
       (forall n, r = Ok n -> n = successes e) /\
       marked_since W (_listings s) (_listings s') /\
       dom (_listings s) ⊆ dom (_listings s') /\
       (writes_handled W ->
          (exists n, r = Ok n) /\
          forall l, l ∈ ls -> listing_id l ∈ dom (_listings s'))) s.
Proof.
  unfold _process_listings. destruct ls as [|l0 ls0] eqn:Els.
  { wp_steps. split; [done|]. split; [by intros n [= <-]|].
    split; [apply marked_since_refl|]. split; [done|]. intros _.
    split; [eauto|]. intros l Hl. by apply elem_of_nil in Hl. }
  rewrite <- Els. clear Els l0 ls0.
  unfold get_new_listings. wp_steps.
  - (* no new ids *)
    assert (Hnone : unseen (_listings s) ls = []).
    { apply filter_none. intros l Hl Hnew.
      assert (listing_id l ∈ (∅ : gset string)); [|set_solver].
      match goal with H : _ = ∅ |- _ => rewrite <- H end.
      apply elem_of_difference. split; [|done].
      apply elem_of_list_to_set, list_elem_of_fmap. eauto. }
    rewrite Hnone. split; [done|]. split; [by intros n [= <-]|].
    split; [apply marked_since_refl|]. split; [done|]. intros _.
    split; [eauto|]. intros l Hl.
    destruct (decide (listing_id l ∈ dom (_listings s))) as [Hin|Hnin]; [done|].
    assert (Hl' : l ∈ unseen (_listings s) ls) by (by apply list_elem_of_filter).
    rewrite Hnone in Hl'. by apply elem_of_nil in Hl'.
  - (* some new ids *)
    set (new_ids := list_to_set (listing_id <$> ls) ∖ dom (_listings s)).
    assert (Hnew : filter (fun l => listing_id l ∈ new_ids) ls =
                   unseen (_listings s) ls).
    { apply filter_ext_elem. intros l Hl. subst new_ids.
      rewrite elem_of_difference, elem_of_list_to_set, list_elem_of_fmap.
      split; [tauto|]. intros Hn. split; [eauto|done]. }
    rewrite Hnew.
    eapply wp_mono; [apply notify_loop_spec|]. cbn beta.
    intros r s1 e1 (Hn1 & -> & Hst1). wp_step.
    eapply wp_mono; [apply mark_all_spec|]. cbn beta.
    intros r s2 e2 (Hn2 & Hk2 & Hd2 & Hr2).
    assert (Hsu : forall evs, notifications evs = notifications e1 ->
              successes evs = successes e1).
    { intros evs Hx. unfold successes. by rewrite Hx. }
    rewrite Hst1 in *.
    destruct r as [[]|e]; cbn beta iota; [wp_steps|].
    + match goal with |- (notifications ?evs).*1 = _ /\ _ =>
        assert (Hev : notifications evs = notifications e1)
          by (rewrite !notifications_app, Hn2; cbn; by rewrite ?app_nil_r)
      end.
      rewrite Hev. split; [done|].
      split; [intros n' [= <-]; symmetry; by apply Hsu|].
      split; [done|]. split; [done|]. intros HW. split; [eauto|].
      destruct (Hr2 HW) as [_ Hd]. intros l Hl. rewrite Hd.
      destruct (decide (listing_id l ∈ dom (_listings s))) as [Hin|Hnin];
        [set_solver|].
      apply elem_of_union_l, elem_of_list_to_set, list_elem_of_fmap.
      exists l. split; [done|]. by apply list_elem_of_filter.
    + match goal with |- (notifications ?evs).*1 = _ /\ _ =>
        assert (Hev : notifications evs = notifications e1)
          by (rewrite !notifications_app, Hn2; cbn; by rewrite ?app_nil_r)
      end.
      rewrite Hev.
      split; [done|]. split; [done|]. split; [done|]. split; [done|].
      intros HW. by destruct (Hr2 HW).
Qed.

End CycleFacts.

Section CycleClaims.

Variable W : World.
Variable cfg : Config.

Lemma cleanup_spec (days : Z) (s : State) :
  wp (cleanup W days)
    (fun r s' e =>
       notifications e = [] /\ marked_since W (_listings s) (_listings s') /\
       dom (_listings s') ⊆ dom (_listings s)) s.
Proof.
  unfold wp. split; [apply cleanup_silent|].
  rewrite cleanup_post_listings.
  destruct (minus_days _ _) as [e|cutoff];
    [split; [apply marked_since_refl|done]|].
  split; [apply marked_since_delete|].
  intros k [r Hr]%elem_of_dom.
  apply lookup_foldr_delete_Some in Hr as [_ Hr]. apply elem_of_dom. eauto.
Qed.

Lemma check_cycle_spec (s : State) :
  wp (check_cycle W cfg)
    (fun r s' e =>
       (exists all, (notifications e).*1 =
                      unseen (_listings s) (first_by_id all ∅)) /\
       (forall n, r = Ok n -> n = successes e) /\
       marked_since W (_listings s) (_listings s')) s.
Proof.
  unfold check_cycle. wp_step.
  eapply wp_mono; [apply search_all_keywords_spec|]. cbn beta.
  intros r s1 e1 ([all ->] & Hn1 & Hst1). wp_steps.
  eapply wp_mono; [apply process_listings_spec|]. cbn beta.
  intros r s2 e2 (Hn2 & Hr2 & Hk2 & _ & _). rewrite Hst1 in *.
  destruct r as [n|e]; cbn beta iota.
  - wp_step. eapply wp_mono; [apply cleanup_spec|]. cbn beta.
    intros r s3 e3 (Hn3 & Hk3 & _).
    destruct r as [k|e]; cbn beta iota; [wp_steps|].
    + split; [|split].
      * exists all. rewrite !notifications_app, Hn1, Hn3. cbn.
        by rewrite app_nil_r.
      * intros n' [= <-]. rewrite (Hr2 n eq_refl). unfold successes.
        rewrite !notifications_app, Hn1, Hn3. cbn. by rewrite app_nil_r.
      * by eapply marked_since_trans.
    + split; [|split].
      * exists all. rewrite !notifications_app, Hn1, Hn3. cbn.
        by rewrite app_nil_r.
      * done.
      * by eapply marked_since_trans.
  - split; [|split; [done|done]].
    exists all. rewrite !notifications_app, Hn1. done.
Qed.

(** The listings a cycle tries to notify, from the batch of its search *)
Lemma check_cycle_attempts (s : State) :
  wp (check_cycle W cfg)
    (fun r s' e =>
       forall batch, res (_search_all_keywords W cfg s) = Ok batch ->
         (notifications e).*1 = unseen (_listings s) batch) s.
Proof.
  unfold check_cycle. wp_step.
  eapply wp_mono;
    [apply wp_and; [apply search_all_keywords_spec|apply wp_self]|].
  cbn beta. intros r s1 e1 [([all ->] & Hn1 & Hst1) (Hres & _ & _)]. wp_steps.
  eapply wp_mono; [apply process_listings_spec|]. cbn beta.
  intros r s2 e2 (Hn2 & _ & _ & _ & _). rewrite Hst1 in *.
  destruct r as [n|e]; cbn beta iota.
  - wp_step. eapply wp_mono; [apply cleanup_spec|]. cbn beta.
    intros r s3 e3 (Hn3 & _ & _).
    destruct r as [k|e]; cbn beta iota; [wp_steps|];
      intros batch Hb; rewrite <- Hres in Hb; injection Hb as <-;
      rewrite !notifications_app, Hn1, Hn3; cbn; by rewrite ?app_nil_r.
  - intros batch Hb. rewrite <- Hres in Hb. injection Hb as <-.
    by rewrite !notifications_app, Hn1.
Qed.

(** [check_once], computed from its cycle *)
Lemma check_once_eq (s : State) :
  check_once W cfg s =
    match check_cycle W cfg s with
    | MkOutcome (Ok n) s1 e1 =>
        MkOutcome (Ok n) s1 (EvLog INFO "Starting marketplace check..." :: e1)
    | MkOutcome (Raise e) s1 e1 =>
        MkOutcome (Ok 0) s1
          (EvLog INFO "Starting marketplace check..." ::
           e1 ++ [EvLog ERROR ("Error during check: " +:+ exn_str e)])
    end.
Proof.
  unfold check_once, bind, try_except, log, emit, ret. cbn.
  destruct (check_cycle W cfg s) as [[n|e] s1 e1]; cbn; [done|].
  by rewrite ?app_nil_r.
Qed.

Lemma check_once_attempts (s : State) (batch : list Listing) :
  res (_search_all_keywords W cfg s) = Ok batch ->
  (notifications (events (check_once W cfg s))).*1 = unseen (_listings s) batch.
Proof.
  intros Hb. rewrite check_once_eq.
  pose proof (check_cycle_attempts s) as Hc. unfold wp in Hc.
  specialize (Hc batch Hb).
  destruct (check_cycle W cfg s) as [[n|e] s1 e1]; cbn in *; [done|].
  change (EvLog INFO "Starting marketplace check..." :: e1 ++ ?x)
    with ([EvLog INFO "Starting marketplace check..."] ++ e1 ++ x).
  rewrite !notifications_app. cbn. by rewrite app_nil_r.
Qed.

Lemma check_once_spec (s : State) :
  wp (check_once W cfg)
    (fun r s' e =>
       (exists n, r = Ok n) /\
       (exists all, (notifications e).*1 =
                      unseen (_listings s) (first_by_id all ∅)) /\
       marked_since W (_listings s) (_listings s')) s.
Proof.
  unfold wp. rewrite check_once_eq.
  pose proof (check_cycle_spec s) as (Hn & _ & Hk). unfold wp in Hn, Hk.
  destruct (check_cycle W cfg s) as [[n|e] s1 e1]; cbn in *.
  - split; [eauto|]. done.
  - split; [eauto|]. split; [|done].
    destruct Hn as [all Hn]. exists all.
    change (EvLog INFO "Starting marketplace check..." :: e1 ++ ?x)
      with ([EvLog INFO "Starting marketplace check..."] ++ e1 ++ x).
    rewrite !notifications_app. cbn. by rewrite app_nil_r.
Qed.

End CycleClaims.

Lemma fmap_filter_NoDup {A B} (f : A -> B) (P : A -> Prop)
    `{!forall x, Decision (P x)} (l : list A) :
  NoDup (f <$> l) -> NoDup (f <$> filter P l).
Proof.
  intros Hl. eapply sublist_NoDup; [exact Hl|].
  apply fmap_sublist, sublist_filter.
Qed.

Lemma find_same_id (all : list Listing) (l : Listing) :
  l ∈ all ->
  exists l0, List.find (same_id l) all = Some l0 /\
             listing_id l0 = listing_id l.
Proof.
  induction all as [|x all IH]; [by intros ?%elem_of_nil|].
  intros Hl. cbn. unfold same_id at 1. case_bool_decide as Hx; [eauto|].
  apply elem_of_cons in Hl as [->|Hl]; [done|]. by apply IH.
Qed.

Lemma find_same_id_ext (all : list Listing) (l l0 : Listing) :
  listing_id l0 = listing_id l ->
  List.find (same_id l0) all = List.find (same_id l) all.
Proof. intros Heq. unfold same_id. by rewrite Heq. Qed.

Lemma filter_one_of_NoDup (xs : list Listing) (x : Listing) :
  NoDup (listing_id <$> xs) -> x ∈ xs ->
  length (filter (fun y => listing_id y = listing_id x) xs) = 1.
Proof.
  induction xs as [|y xs IH]; [by intros _ ?%elem_of_nil|].
  rewrite fmap_cons, NoDup_cons, filter_cons. intros [Hy Hnd] Hx.
  destruct (decide (listing_id y = listing_id x)) as [Heq|Hne].
  - cbn. f_equal. apply length_zero_iff_nil, filter_none.
    intros z Hz Hzx. apply Hy. rewrite Heq, <- Hzx.
    apply list_elem_of_fmap. eauto.
  - apply elem_of_cons in Hx as [->|Hx]; [done|]. by apply IH.
Qed.

Lemma has_seen_eq (id : string) (s : State) :
  has_seen id s = MkOutcome (Ok (bool_decide (id ∈ dom (_listings s)))) s [].
Proof. done. Qed.

Section Retention.

Variable W : World.
Variable cfg : Config.

Lemma stamped_between_refl (t1 t2 : nat) (m : gmap string ListingRecord) :
  stamped_between W t1 t2 m m.
Proof. intros id r Hr. by left. Qed.

Lemma stamped_between_trans (t1 t2 t3 : nat)
    (m1 m2 m3 : gmap string ListingRecord) :
  t1 <= t2 -> t2 <= t3 ->
  stamped_between W t1 t2 m1 m2 -> stamped_between W t2 t3 m2 m3 ->
  stamped_between W t1 t3 m1 m3.
Proof.
  intros H12 H23 Ha Hb id r Hr.
  destruct (Hb id r Hr) as [Hr2|(t & ? & ? & Ht)].
  - destruct (Ha id r Hr2) as [Hr1|(t & ? & ? & Ht)]; [by left|].
    right. exists t. split; [done|]. split; [lia|done].
  - right. exists t. split; [lia|]. split; [done|done].
Qed.

Lemma stamped_between_upsert (t : nat) (id ttl : string) (n : bool)
    (m : gmap string ListingRecord) :
  stamped_between W t (S t) m (upsert (datetime_now W t) id ttl n m).
Proof.
  intros k r. unfold upsert.
  destruct (m !! id) as [r0|] eqn:E; (destruct (decide (k = id)) as [->|Hne];
    [rewrite lookup_insert_eq; intros [= <-]; right; exists t;
       (split; [lia|]); (split; [lia|done])
    |rewrite lookup_insert_ne by done; intros Hr; by left]).
Qed.

Lemma send_listing_tick (l : Listing) (s : State) :
  wp (send_listing W l) (fun _ s' _ => tick s <= tick s') s.
Proof.
  unfold send_listing, _get_bot, send_photo, send_message.
  wp_steps; cbn; lia.
Qed.

Lemma notify_loop_tick (ls : list Listing) (c : nat) (s : State) :
  wp (notify_loop W cfg ls c) (fun _ s' _ => tick s <= tick s') s.
Proof.
  revert c s. induction ls as [|l ls IH]; intros c s; cbn [notify_loop].
  - wp_steps. lia.
  - unfold notify_listing. wp_step. wp_step. wp_step.
    + eapply wp_mono; [apply send_listing_tick|]. cbn beta.
      intros r s1 e1 Ht1. destruct r as [ok|e]; cbn beta iota; [|done].
      wp_steps. eapply wp_mono; [apply IH|]. cbn beta. intros; lia.
    + wp_steps. eapply wp_mono; [apply IH|]. cbn beta. intros; lia.
Qed.

Lemma search_loop_tick (kws : list string) (acc : list Listing) (s : State) :
  wp (search_loop W kws acc) (fun _ s' _ => tick s <= tick s') s.
Proof.
  revert acc s. induction kws as [|kw kws IH]; intros acc s; cbn [search_loop].
  - wp_steps. lia.
  - unfold scraper_search_call. wp_steps;
      (eapply wp_mono; [apply IH|]); cbn; intros; lia.
Qed.

Lemma search_all_keywords_tick (s : State) :
  wp (_search_all_keywords W cfg) (fun _ s' _ => tick s <= tick s') s.
Proof.
  unfold _search_all_keywords. wp_step.
  eapply wp_mono; [apply search_loop_tick|]. cbn beta.
  intros r s1 e1 Ht. destruct r; cbn beta iota; [wp_steps|]; done.
Qed.

Lemma mark_all_stamped (new : list Listing) (s : State) :
  wp (for_each new (fun l => mark_seen W (listing_id l) (title l) true))
    (fun _ s' _ =>
       tick s <= tick s' /\
       stamped_between W (tick s) (tick s') (_listings s) (_listings s')) s.
Proof.
  revert s. induction new as [|l new IH]; intros s; cbn [for_each].
  - wp_steps. split; [lia|apply stamped_between_refl].
  - wp_step. unfold wp at 1.
    rewrite (mark_seen_post W (listing_id l) (title l) true s).
    set (s1 := next_tick (with_listings _ (next_tick s))).
    assert (Hs1 : stamped_between W (tick s) (tick s1)
                    (_listings s) (_listings s1)).
    { eapply (stamped_between_trans _ (S (tick s)));
        [lia|cbn; lia|apply stamped_between_upsert|apply stamped_between_refl]. }
    destruct (res (mark_seen W (listing_id l) (title l) true s)) as [[]|e].
    + eapply wp_mono; [apply IH|]. cbn beta. intros r s2 e2 [Ht2 Hk2].
      assert (tick s <= tick s1) by (cbn; lia).
      split; [lia|]. by eapply (stamped_between_trans _ (tick s1)).
    + split; [cbn; lia|done].
Qed.

Lemma process_listings_stamped (ls : list Listing) (s : State) :
  wp (_process_listings W cfg ls)
    (fun _ s' _ =>
       tick s <= tick s' /\
       stamped_between W (tick s) (tick s') (_listings s) (_listings s')) s.
Proof.
  unfold _process_listings. destruct ls as [|l0 ls0] eqn:Els.
  { wp_steps. split; [lia|apply stamped_between_refl]. }
  rewrite <- Els. clear Els l0 ls0.
  unfold get_new_listings. wp_steps.
  - split; [lia|apply stamped_between_refl].
  - eapply wp_mono;
      [apply wp_and; [apply notify_loop_spec|apply notify_loop_tick]|].
    cbn beta. intros r s1 e1 [(_ & -> & Hst1) Ht1]. wp_step.
    eapply wp_mono; [apply mark_all_stamped|]. cbn beta.
    intros r s2 e2 [Ht2 Hk2]. rewrite Hst1 in Hk2.
    assert (Hk : stamped_between W (tick s) (tick s2)
                   (_listings s) (_listings s2)).
    { eapply (stamped_between_trans _ (tick s1));
        [done|done|apply stamped_between_refl|done]. }
    destruct r as [[]|e]; cbn beta iota; [wp_steps|]; (split; [lia|done]).
Qed.

Lemma cleanup_tick (days : Z) (s : State) :
  tick s < tick (post (cleanup W days s)).
Proof.
  unfold cleanup, bind, ask, get, modify, ret, raise, log, emit. cbn.
  destruct (minus_days _ _) as [e|cutoff]; cbn; [lia|].
  destruct (map_to_list _).*1 as [|k ks] eqn:E; cbn; [lia|].
  match goal with |- context [_save W ?s'] =>
    pose proof (save_post W s') as Hp; destruct (_save W s') as [[[]|e] s2 e2]
  end; cbn in *; subst; cbn; lia.
Qed.

Lemma check_cycle_keeps_attempted (s : State) :
  writes_handled W ->
  wp (check_cycle W cfg)
    (fun r s' e =>
       within_retention W (cleanup_days cfg) (tick s) (tick s') ->
       forall l, l ∈ (notifications e).*1 ->
         listing_id l ∈ dom (_listings s')) s.
Proof.
  intros HW. unfold check_cycle. wp_step.
  eapply wp_mono;
    [apply wp_and; [apply search_all_keywords_spec
                   |apply search_all_keywords_tick]|].
  cbn beta. intros r s1 e1 [([all ->] & Hn1 & Hst1) Ht1]. wp_steps.
  eapply wp_mono;
    [apply wp_and; [apply process_listings_spec
                   |apply process_listings_stamped]|].
  cbn beta. intros r s2 e2 [(Hn2 & _ & _ & _ & Hr2) [Ht2 Hk2]].
  rewrite Hst1 in *.
  destruct (Hr2 HW) as [[n ->] Hseen]. cbn beta iota. wp_step.
  assert (Hstamped : forall l, l ∈ (notifications e2).*1 ->
            exists r t, _listings s2 !! listing_id l = Some r /\
                        tick s <= t /\ t < tick s2 /\
                        last_seen r = datetime_now W t).
  { intros l Hl. rewrite Hn2 in Hl. apply list_elem_of_filter in Hl as [Hnot Hl].
    specialize (Hseen l Hl). apply elem_of_dom in Hseen as [r Hr].
    destruct (Hk2 _ r Hr) as [Hr0|(t & ? & ? & Ht)].
    - destruct Hnot. apply elem_of_dom. eauto.
    - exists r, t. split; [done|]. split; [lia|]. split; [done|done]. }
  pose proof (cleanup_post_listings W (cleanup_days cfg) s2) as Hpost.
  pose proof (cleanup_silent W (cleanup_days cfg) s2) as Hn3.
  pose proof (cleanup_tick (cleanup_days cfg) s2) as Ht3.
  unfold wp.
  destruct (cleanup W (cleanup_days cfg) s2) as [r s3 e3].
  cbn [res post events] in Hpost, Hn3, Ht3.
  assert (Hkeep : within_retention W (cleanup_days cfg) (tick s) (tick s3) ->
            forall l, l ∈ (notifications e2).*1 ->
              listing_id l ∈ dom (_listings s3)).
  { intros Hclock l Hl. destruct (Hstamped l Hl) as (r0 & t & Hr0 & ? & ? & Ht).
    apply elem_of_dom. exists r0. rewrite Hpost.
    destruct (minus_days _ _) as [e|cutoff] eqn:E; [done|].
    apply minus_days_inr in E as (_ & -> & _). rewrite cleanup_keeps.
    apply map_lookup_filter_Some. split; [done|]. cbn.
    specialize (Hclock t (tick s2)). lia. }
  destruct r as [k|e]; cbn [res post events]; [wp_steps|];
    intros Hclock l; rewrite !notifications_app, Hn1, Hn3; cbn;
    rewrite ?app_nil_r; by apply Hkeep.
Qed.

Lemma check_once_keeps_attempted (s : State) (l : Listing) (ok : bool) :
  writes_handled W ->
  let o := check_once W cfg s in
  within_retention W (cleanup_days cfg) (tick s) (tick (post o)) ->
  EvNotify l ok ∈ events o ->
  listing_id l ∈ dom (_listings (post o)) /\
  forall l' ok',
    EvNotify l' ok' ∈ events (check_once W cfg (post o)) ->
    listing_id l' <> listing_id l.
Proof.
  intros HW o Hclock Hev.
  assert (Hin : listing_id l ∈ dom (_listings (post o))).
  { subst o. rewrite check_once_eq in Hev, Hclock |- *.
    pose proof (check_cycle_keeps_attempted s HW) as Hc. unfold wp in Hc.
    destruct (check_cycle W cfg s) as [[n|e] s1 e1]; cbn in *.
    - apply Hc; [done|]. apply list_elem_of_fmap. exists (l, ok). split; [done|].
      apply elem_of_notifications. apply elem_of_cons in Hev as [?|?]; done.
    - apply Hc; [done|]. apply list_elem_of_fmap. exists (l, ok). split; [done|].
      apply elem_of_notifications. apply elem_of_cons in Hev as [?|Hev]; [done|].
      apply elem_of_app in Hev as [?|Hev]; [done|].
      apply elem_of_cons in Hev as [?|Hev]; [done|]. by apply elem_of_nil in Hev. }
  split; [done|]. intros l' ok' Hev' Heq.
  pose proof (check_once_spec W cfg (post o)) as (_ & [all Hn] & _).
  apply elem_of_notifications in Hev'.
  assert (Hl' : l' ∈ (notifications (events (check_once W cfg (post o)))).*1).
  { apply list_elem_of_fmap. by exists (l', ok'). }
  rewrite Hn in Hl'. apply list_elem_of_filter in Hl' as [Hnot _].
  apply Hnot. by rewrite Heq.
Qed.

End Retention.

Section Claims.

Variable W : World.
Variable cfg : Config.

(** C1, amended.  When the disk fails with nothing but [IOError],
    [_process_listings] returns; it tries to notify every listing of the
    batch that the store has no record of; and a listing it tried, whether
    the send succeeded or not, is seen afterwards, so that processing any
    later batch from the resulting store does not try its id again.  For a
    whole check, where [cleanup] runs after the marking: when the check
    takes no longer than the retention time, a listing tried by [check_once]
    is seen at its end and the next [check_once] does not try its id. *)
Theorem process_listings_marks_attempted (ls : list Listing) (s : State) :
  writes_handled W ->
  let o := _process_listings W cfg ls s in
  let c := check_once W cfg s in
  (exists n, res o = Ok n) /\
  (forall l, l ∈ ls -> res (has_seen (listing_id l) s) = Ok false ->
     exists ok, EvNotify l ok ∈ events o) /\
  (forall l, l ∈ ls -> res (has_seen (listing_id l) (post o)) = Ok true) /\
  (forall l ok, EvNotify l ok ∈ events o ->
     res (has_seen (listing_id l) (post o)) = Ok true /\
     forall ls' l' ok',
       EvNotify l' ok' ∈ events (_process_listings W cfg ls' (post o)) ->
       listing_id l' <> listing_id l) /\
  (within_retention W (cleanup_days cfg) (tick s) (tick (post c)) ->
   forall l ok,
     EvNotify l ok ∈ events c ->
     res (has_seen (listing_id l) (post c)) = Ok true /\
     forall l' ok',
       EvNotify l' ok' ∈ events (check_once W cfg (post c)) ->
       listing_id l' <> listing_id l).
Proof.
  intros HW o c.
  pose proof (process_listings_spec W cfg ls s) as (Hn & _ & _ & _ & Hr).
  fold o in Hn, Hr. destruct (Hr HW) as [Hok Hseen]. clear Hr.
  assert (Htried : forall l ok, EvNotify l ok ∈ events o ->
            l ∈ ls /\ listing_id l ∉ dom (_listings s)).
  { intros l ok Hev. apply elem_of_notifications in Hev.
    assert (Hl : l ∈ (notifications (events o)).*1).
    { apply list_elem_of_fmap. by exists (l, ok). }
    rewrite Hn in Hl. by apply list_elem_of_filter in Hl as [? ?]. }
  split; [exact Hok|]. split; [|split; [|split]].
  4: { intros Hclock l ok Hev.
       destruct (check_once_keeps_attempted W cfg s l ok HW Hclock Hev)
         as [Hin Hno].
       split; [|exact Hno]. rewrite has_seen_eq. cbn. f_equal.
       by apply bool_decide_eq_true. }
  - intros l Hl Hunseen. rewrite has_seen_eq in Hunseen. cbn in Hunseen.
    injection Hunseen as Hunseen. apply bool_decide_eq_false in Hunseen.
    assert (Hl' : l ∈ (notifications (events o)).*1).
    { rewrite Hn. by apply list_elem_of_filter. }
    apply list_elem_of_fmap in Hl' as ([l' ok] & -> & Hin).
    exists ok. by apply elem_of_notifications.
  - intros l Hl. rewrite has_seen_eq. cbn. f_equal.
    apply bool_decide_eq_true. by apply Hseen.
  - intros l ok Hev. destruct (Htried l ok Hev) as [Hl _].
    assert (Hin : listing_id l ∈ dom (_listings (post o))) by by apply Hseen.
    split.
    + rewrite has_seen_eq. cbn. f_equal. by apply bool_decide_eq_true.
    + intros ls' l' ok' Hev' Heq.
      pose proof (process_listings_spec W cfg ls' (post o)) as (Hn' & _).
      apply elem_of_notifications in Hev'.
      assert (Hl' : l' ∈ (notifications
                (events (_process_listings W cfg ls' (post o)))).*1).
      { apply list_elem_of_fmap. by exists (l', ok'). }
      rewrite Hn' in Hl'. apply list_elem_of_filter in Hl' as [Hnot _].
      apply Hnot. by rewrite Heq.
Qed.

(** C6. The batch of [_search_all_keywords] is the merge of the lists its
    searches returned, term by term.  For every sequence of such lists the
    merge has no id twice and keeps, for each id that occurs, the first
    listing that carries it, in the order of arrival.  So in one check each
    id that some search returned and that the store has no record of gets
    exactly one notification attempt, however many terms returned it, and
    the attempt is for the first listing with that id. *)
Theorem merge_keeps_first_occurrence (results : list (list Listing))
    (s : State) :
  let all := concat results in
  let merged := unique_loop all ∅ [] in
  let tried := (notifications (events (check_once W cfg s))).*1 in
  NoDup (listing_id <$> merged) /\
  (forall l, l ∈ merged <-> List.find (same_id l) all = Some l) /\
  merged `sublist_of` all /\
  (forall l, l ∈ all ->
     exists l0, l0 ∈ merged /\ listing_id l0 = listing_id l) /\
  (scraper s = true ->
   results = term_results W (keywords cfg) (tick s) ->
   res (_search_all_keywords W cfg s) = Ok merged /\
   tried = unseen (_listings s) merged /\
   forall l, l ∈ all -> _listings s !! listing_id l = None ->
     length (filter (fun x => listing_id x = listing_id l) tried) = 1).
Proof.
  intros all merged tried.
  assert (Hmerged : merged = first_by_id all ∅).
  { subst merged. by rewrite unique_loop_first_by_id, app_nil_l. }
  assert (Hnd : NoDup (listing_id <$> merged)).
  { rewrite Hmerged. apply first_by_id_NoDup. }
  assert (Hin : forall l, l ∈ merged <-> List.find (same_id l) all = Some l).
  { intros l. rewrite Hmerged, elem_of_first_by_id. set_solver. }
  assert (Hfirst : forall l, l ∈ all ->
            exists l0, l0 ∈ merged /\ listing_id l0 = listing_id l).
  { intros l Hl. destruct (find_same_id all l Hl) as (l0 & Hf & Heq).
    exists l0. split; [|done]. apply Hin.
    by rewrite (find_same_id_ext all l l0 Heq). }
  split; [exact Hnd|]. split; [exact Hin|].
  split; [rewrite Hmerged; apply first_by_id_sublist|].
  split; [exact Hfirst|].
  intros Hscr Hres.
  destruct (search_all_keywords_exact W cfg s Hscr) as [Hbatch _].
  rewrite <- Hres in Hbatch. fold all in Hbatch. fold merged in Hbatch.
  assert (Htried : tried = unseen (_listings s) merged).
  { subst tried. by apply check_once_attempts. }
  split; [exact Hbatch|]. split; [exact Htried|].
  intros l Hl Hnew. destruct (Hfirst l Hl) as (l0 & Hl0 & Heq).
  rewrite <- Heq. apply filter_one_of_NoDup.
  - rewrite Htried. by apply fmap_filter_NoDup.
  - rewrite Htried. apply list_elem_of_filter. split; [|done].
    rewrite Heq. by apply not_elem_of_dom.
Qed.

(** C7, as the code has it.  A record that a check creates is flagged as
    notified, whatever became of the notification. *)
Theorem created_records_flagged_notified (s : State) (id : string)
    (r : ListingRecord) :
  let o := check_once W cfg s in
  _listings s !! id = None ->
  _listings (post o) !! id = Some r ->
  notified r = true.
Proof.
  intros o Hnone Hr.
  pose proof (check_once_spec W cfg s) as (_ & _ & Hk).
  destruct (Hk id r Hr) as [Hr0|[_ [Hn|(r1 & Hr1 & _)]]]; congruence.
Qed.

(** C10. [check_once] does not raise.  When its cycle raises, the result is
    0; when the cycle returns, the result is the cycle's, and it is the
    number of notifications that went out during the check. *)
Theorem check_once_total (s : State) :
  let o := check_once W cfg s in
  (exists n, res o = Ok n) /\
  (forall e, res (check_cycle W cfg s) = Raise e -> res o = Ok 0) /\
  (forall n, res (check_cycle W cfg s) = Ok n ->
     res o = Ok n /\ n = successes (events o)).
Proof.
  cbn zeta. rewrite check_once_eq.
  pose proof (check_cycle_spec W cfg s) as (_ & Hr & _). unfold wp in Hr.
  destruct (check_cycle W cfg s) as [[n|e] s1 e1]; cbn in *.
  - split; [eauto|]. split; [done|]. intros n' [= <-]. split; [done|].
    rewrite (Hr n eq_refl). done.
  - split; [eauto|]. split; [done|]. done.
Qed.

End Claims.

(** ** The monitor loop *)

Lemma wp_eq {A} (c : M A) (o : Outcome A)
    (Q : result A -> State -> list event -> Prop) (s : State) :
  c s = o -> Q (res o) (post o) (events o) -> wp c Q s.
Proof. intros <-. done. Qed.

Section LoopFacts.

Variable W : World.
Variable cfg : Config.
Variable check : M nat.

Lemma loop_iteration_raise (rc : Z) (s s1 : State) (e : exn) (e1 : list event) :
  check s = MkOutcome (Raise e) s1 e1 ->
  loop_iteration cfg check rc s =
    MkOutcome
      (Ok (if bool_decide (max_retries cfg ≤ rc + 1)%Z then 0 else rc + 1)%Z)
      s1
      (e1 ++
       EvLog ERROR ("Check failed (attempt " +:+ pretty (rc + 1)%Z +:+ "): " +:+
                    exn_str e) ::
       (if bool_decide (max_retries cfg ≤ rc + 1)%Z
        then [EvLog ERROR "Max retries reached, waiting before next attempt";
              EvSleep (retry_delay_seconds cfg);
              EvSleep (Z.min (30 * 0) 300)]
        else [EvSleep (Z.min (30 * (rc + 1)) 300)])).
Proof.
  intros Hc. unfold loop_iteration, bind, try_except, log, sleep, emit, ret.
  rewrite Hc. cbn.
  destruct (bool_decide (max_retries cfg ≤ rc + 1)%Z); cbn;
    by rewrite ?app_nil_r, <- ?app_assoc.
Qed.

Lemma loop_iteration_ok (rc : Z) (s s1 : State) (n : nat) (e1 : list event) :
  check s = MkOutcome (Ok n) s1 e1 ->
  loop_iteration cfg check rc s =
    MkOutcome (Ok 0%Z) s1
      (e1 ++
       (if bool_decide (0 < n)
        then [EvLog INFO ("Sent " +:+ pretty n +:+ " notifications")]
        else []) ++
       [EvLog INFO ("Next check in " +:+ pretty (check_interval_seconds cfg) +:+
                    " seconds...");
        EvSleep (check_interval_seconds cfg)]).
Proof.
  intros Hc. unfold loop_iteration, bind, try_except, log, sleep, emit, ret.
  rewrite Hc. cbn.
  destruct (bool_decide (0 < n)); cbn; by rewrite ?app_nil_r, <- ?app_assoc.
Qed.

Lemma poll_stop_quiet (s : State) :
  stop_signal W (tick s) = false ->
  poll_stop W s = MkOutcome (Ok tt) (next_tick s) [].
Proof.
  intros Hs. unfold poll_stop, bind, ask, stop, modify, ret. cbn.
  by rewrite Hs.
Qed.

(** The loop under a check that fails every time and does nothing else *)
Lemma monitor_loop_failing (e : exn) (fuel : nat) (rc : Z) (s : State) :
  (forall s', check s' = MkOutcome (Raise e) s' []) ->
  (forall t, stop_signal W t = false) ->
  _running s = true ->
  wp (monitor_loop W cfg check fuel rc)
    (fun r s' evs =>
       r = Ok false /\ _running s' = true /\
       sleeps evs =
         backoff_schedule (max_retries cfg) (retry_delay_seconds cfg) fuel rc) s.
Proof.
  intros Hc Hs. revert rc s. induction fuel as [|fuel IH]; intros rc s Hrun.
  - done.
  - cbn [monitor_loop backoff_schedule]. wp_step.
    eapply wp_eq; [apply poll_stop_quiet, Hs|]. cbn [res post events].
    wp_step. wp_step. cbn [_running next_tick]. rewrite Hrun. wp_step.
    eapply wp_eq; [apply loop_iteration_raise, Hc|]. cbn [res post events].
    eapply wp_mono; [apply IH; exact Hrun|]. cbn beta.
    intros r s2 e2 (-> & Hrun2 & Hsl). split; [done|]. split; [done|].
    rewrite !sleeps_app, Hsl.
    destruct (bool_decide (max_retries cfg ≤ rc + 1)%Z); done.
Qed.

Lemma for_each_log (lv : level) (f : string -> string) (l : list string)
    (s : State) :
  for_each l (fun x => log lv (f x)) s =
    MkOutcome (Ok tt) s ((fun x => EvLog lv (f x)) <$> l).
Proof.
  induction l as [|x l IH]; [done|].
  cbn [for_each]. unfold bind at 1, log at 1, emit. cbn beta iota.
  rewrite IH. done.
Qed.

Lemma send_status_message_spec (text : string) (s : State) :
  wp (send_status_message W cfg text)
    (fun r s' e =>
       (exists ok, r = Ok ok) /\ _running s' = _running s /\
       _listings s' = _listings s /\ notifications e = [] /\
       searches e = []) s.
Proof.
  unfold send_status_message, telegram_send_message, _get_bot, send_message.
  wp_steps; split; eauto.
Qed.

Lemma shutdown_spec (s : State) :
  wp (shutdown W cfg)
    (fun r s' e => r = Ok tt /\ _running s' = false) s.
Proof.
  unfold shutdown. wp_step. wp_step. wp_step. wp_step. wp_step. wp_step.
  wp_step.
  - (* get *) wp_step. wp_step. wp_step.
    + wp_steps. eapply wp_mono; [apply send_status_message_spec|]. cbn beta.
      intros r s1 e1 ([ok ->] & Hrun & _). wp_steps. done.
    + wp_steps. eapply wp_mono; [apply send_status_message_spec|]. cbn beta.
      intros r s1 e1 ([ok ->] & Hrun & _). wp_steps. done.
Qed.

End LoopFacts.

Section LoopClaims.

Variable W : World.
Variable cfg : Config.
Variable check : M nat.

(** The exception handler of the loop, for a procedure in the place of the
    check that raises: a pass adds one to the retry counter and, while the
    counter is below [max_retries], sleeps [min(30 * counter, 300)] seconds;
    when the counter reaches [max_retries] it sleeps [retry_delay_seconds],
    resets the counter to zero, and the sleep that follows lasts
    [min(30 * 0, 300) = 0] seconds.  [check_once], the check that [run]
    calls, never raises. *)
Lemma retry_handler_schedule (rc : Z) (s : State) :
  let c := check s in
  let o := loop_iteration cfg check rc s in
  (forall e, res c = Raise e ->
     ((rc + 1 < max_retries cfg)%Z ->
        res o = Ok (rc + 1)%Z /\
        sleeps (events o) = sleeps (events c) ++ [Z.min (30 * (rc + 1)) 300]) /\
     ((max_retries cfg <= rc + 1)%Z ->
        res o = Ok 0%Z /\
        sleeps (events o) =
          sleeps (events c) ++ [retry_delay_seconds cfg; 0%Z])) /\
  (forall n, res c = Ok n ->
     res o = Ok 0%Z /\
     sleeps (events o) = sleeps (events c) ++ [check_interval_seconds cfg]) /\
  (forall e,
     (forall s', check s' = MkOutcome (Raise e) s' []) ->
     (forall t, stop_signal W t = false) ->
     _running s = true ->
     max_retries cfg = 5%Z ->
     sleeps (events (monitor_loop W cfg check 3 0 s)) = [30; 60; 90]%Z /\
     sleeps (events (monitor_loop W cfg check 6 0 s)) =
       [30; 60; 90; 120; retry_delay_seconds cfg; 0; 30]%Z).
Proof.
  cbn zeta. split; [|split].
  - intros e He. destruct (check s) as [r s1 e1] eqn:Hc. cbn in He. subst r.
    rewrite (loop_iteration_raise cfg check rc s s1 e e1 Hc). cbn [res events].
    split.
    + intros Hlt. rewrite bool_decide_eq_false_2 by lia.
      by rewrite sleeps_app.
    + intros Hge. rewrite bool_decide_eq_true_2 by lia.
      by rewrite sleeps_app.
  - intros n Hn. destruct (check s) as [r s1 e1] eqn:Hc. cbn in Hn. subst r.
    rewrite (loop_iteration_ok cfg check rc s s1 n e1 Hc). cbn [res events].
    split; [done|]. rewrite !sleeps_app.
    destruct (bool_decide (0 < n)); by rewrite ?app_nil_r.
  - intros e Hc Hs Hrun Hmax.
    pose proof (monitor_loop_failing W cfg check e 3 0 s Hc Hs Hrun)
      as (_ & _ & H3).
    pose proof (monitor_loop_failing W cfg check e 6 0 s Hc Hs Hrun)
      as (_ & _ & H6).
    rewrite H3, H6, Hmax. done.
Qed.

Lemma validate_cases :
  ("No notification method configured. Enable Telegram or WhatsApp."
     ∈ validate cfg <->
   telegram_enabled cfg = false /\ whatsapp_enabled cfg = false) /\
  ("No search keywords configured. Set SEARCH_KEYWORDS env var."
     ∈ validate cfg <-> keywords cfg = []).
Proof.
  unfold validate.
  destruct (telegram_enabled cfg), (whatsapp_enabled cfg), (keywords cfg);
    cbn; rewrite ?elem_of_cons, ?elem_of_nil; split; split;
    intros; repeat match goal with
    | H : _ \/ _ |- _ => destruct H
    | H : _ /\ _ |- _ => destruct H
    end; try done; auto.
Qed.

(** C8, as the code has it.  With a configuration that [validate] rejects,
    [run] returns after logging each error on a line of its own: nothing is
    searched, sent or slept and the check is not called; but [_running],
    set at the top of [run], is still true when [run] returns. *)
Theorem run_invalid_config_leaves_running (fuel : nat) (s : State) :
  validate cfg <> [] ->
  let o := run_with W cfg check fuel s in
  res o = Ok true /\
  events o =
    [EvLog INFO "Starting Facebook Marketplace Monitor...";
     EvLog INFO (Config_str cfg);
     EvLog ERROR "Configuration errors:"] ++
    ((fun error => EvLog ERROR ("  - " +:+ error)) <$> validate cfg) /\
  post o = with_running true s /\
  _running (post o) = true.
Proof.
  intros Hbad. unfold run_with.
  destruct (validate cfg) as [|err errs] eqn:E; [done|].
  cbn zeta. unfold bind, modify, log, emit, ret. cbn beta iota.
  pose proof (for_each_log ERROR (fun error => "  - " +:+ error)
                (err :: errs) (with_running true s)) as Hlog.
  unfold log, emit in Hlog. rewrite Hlog. cbn.
  by rewrite app_nil_r.
Qed.

(** When [run] returns after its loop, [shutdown] has cleared [_running]. *)
Lemma run_valid_config_stops (fuel : nat) (s : State) :
  validate cfg = [] ->
  let o := run_with W cfg check fuel s in
  res o = Ok true -> _running (post o) = false.
Proof.
  intros Hok. cbn zeta.
  change (wp (run_with W cfg check fuel)
            (fun r s' _ => r = Ok true -> _running s' = false) s).
  unfold run_with. rewrite Hok. wp_steps.
  eapply wp_mono; [apply send_status_message_spec|]. cbn beta.
  intros r s1 e1 ([ok ->] & _).
  unfold wp, loop_then_shutdown.
  destruct (res (monitor_loop W cfg check fuel 0 s1)) as [[|]|e] eqn:Hl.
  - pose proof (wp_try_finally (monitor_loop W cfg check fuel 0)
        (shutdown W cfg) (fun _ s' _ => _running s' = false) s1) as Hf.
    intros _. apply Hf. unfold wp at 1.
    eapply wp_mono; [apply shutdown_spec|]. cbn beta.
    intros r s2 e2 [-> Hrun]. done.
  - rewrite Hl. done.
  - pose proof (wp_try_finally (monitor_loop W cfg check fuel 0)
        (shutdown W cfg) (fun _ s' _ => _running s' = false) s1) as Hf.
    intros _. apply Hf. unfold wp at 1.
    eapply wp_mono; [apply shutdown_spec|]. cbn beta.
    intros r s2 e2 [-> Hrun]. done.
Qed.

End LoopClaims.

(** ** The claims on concrete worlds *)

(** With [check_once] in its place the check of the loop never raises: every
    pass resets the retry counter. *)
Lemma run_never_retries (W : World) (cfg : Config) (rc : Z) (s : State) :
  res (loop_iteration cfg (check_once W cfg) rc s) = Ok 0%Z.
Proof.
  pose proof (check_once_spec W cfg s) as ([n Hn] & _).
  destruct (check_once W cfg s) as [r s1 e1] eqn:Hc. cbn in Hn. subst r.
  by rewrite (loop_iteration_ok cfg (check_once W cfg) rc s s1 n e1 Hc).
Qed.

(** C5.  The retry policy of [run] is never applied.  [check_once] catches
    every exception of its cycle, logs it and returns 0, so the handler of
    the loop that counts retries and backs off is not reached: after a check
    whose cycle raised, the loop leaves the retry counter at 0, whatever it
    was, and sleeps the check interval, exactly as after a check that found
    nothing.  Consecutive failed checks are [check_interval_seconds] apart,
    not 30, 60 and 90 seconds. *)
Theorem failed_check_is_not_retried (W : World) (cfg : Config) (rc : Z)
    (s : State) (e : exn) :
  res (check_cycle W cfg s) = Raise e ->
  let c := check_once W cfg s in
  let o := loop_iteration cfg (check_once W cfg) rc s in
  res c = Ok 0 /\
  events c =
    EvLog INFO "Starting marketplace check..." ::
    events (check_cycle W cfg s) ++
    [EvLog ERROR ("Error during check: " +:+ exn_str e)] /\
  res o = Ok 0%Z /\
  events o =
    events c ++
    [EvLog INFO ("Next check in " +:+ pretty (check_interval_seconds cfg) +:+
                 " seconds...");
     EvSleep (check_interval_seconds cfg)] /\
  sleeps (events o) =
    sleeps (events (check_cycle W cfg s)) ++ [check_interval_seconds cfg].
Proof.
  intros He c o.
  assert (Hc : c = MkOutcome (Ok 0) (post (check_cycle W cfg s))
                 (EvLog INFO "Starting marketplace check..." ::
                  events (check_cycle W cfg s) ++
                  [EvLog ERROR ("Error during check: " +:+ exn_str e)])).
  { subst c. rewrite check_once_eq.
    destruct (check_cycle W cfg s) as [[n|e'] s1 e1]; cbn in *; congruence. }
  assert (Ho : o = MkOutcome (Ok 0%Z) (post (check_cycle W cfg s))
                 (events c ++
                  [EvLog INFO ("Next check in " +:+
                               pretty (check_interval_seconds cfg) +:+
                               " seconds...");
                   EvSleep (check_interval_seconds cfg)])).
  { subst o. rewrite (loop_iteration_ok cfg (check_once W cfg) rc s _ _ _ Hc).
    fold c. rewrite Hc. cbn. done. }
  split; [by rewrite Hc|]. split; [by rewrite Hc|].
  split; [by rewrite Ho|]. split; [by rewrite Ho|].
  rewrite Ho, Hc. cbn [events].
  change (EvLog INFO "Starting marketplace check..." :: ?x ++ ?y)
    with ([EvLog INFO "Starting marketplace check..."] ++ x ++ y).
  rewrite !sleeps_app. cbn. by rewrite app_nil_r.
Qed.

Lemma world0_writes_handled (start step : Z) (send : answer) :
  writes_handled (world0 start step Done send).
Proof. intros t e H. discriminate H. Qed.

Lemma process_listings_marks_attempted_witness :
  let W := world0 1000 1 (Fails (IOError "disk full"))
             (Fails (OtherError "boom")) in
  let C := cfg0 ["bike"] 5 7 in
  let o := _process_listings W C [bike; lamp] (state0 ∅) in
  let c := check_once W C (state0 ∅) in
  writes_handled W /\
  within_retention W 7 0 (tick (post c)) /\
  EvNotify bike false ∈ events o /\
  res (has_seen "A" (post o)) = Ok true /\
  EvNotify lamp false ∈ events c /\
  res (has_seen "B" (post c)) = Ok true /\
  (forall l' ok', EvNotify l' ok' ∈ events (check_once W C (post c)) ->
     listing_id l' <> "B").
Proof.
  intros W C o c.
  assert (HW : writes_handled W).
  { intros t e H. injection H as <-. reflexivity. }
  assert (Hclock : within_retention W 7 0 (tick (post c))).
  { intros t t' _ Htt' Ht'.
    assert (Hend : tick (post c) <= 1000)
      by (apply Nat.leb_le; vm_compute; reflexivity).
    unfold W, world0, DAY. cbn [datetime_now]. lia. }
  assert (Hev : EvNotify bike false ∈ events o).
  { apply elem_of_notifications. vm_compute. apply list_elem_of_here. }
  assert (Hev' : EvNotify lamp false ∈ events c).
  { apply elem_of_notifications. vm_compute.
    apply list_elem_of_further, list_elem_of_here. }
  destruct (process_listings_marks_attempted W C [bike; lamp] (state0 ∅) HW)
    as (_ & _ & _ & Hp & Hc).
  destruct (Hc Hclock lamp false Hev') as [Hseen Hnext].
  split; [exact HW|]. split; [exact Hclock|].
  split; [exact Hev|]. split; [exact (proj1 (Hp bike false Hev))|].
  split; [exact Hev'|]. split; [exact Hseen|exact Hnext].
Defined.

(** C1 as the specification words it fails in two ways.  With a retention
    of 0 days [cleanup] evicts the fresh marks at the end of the check: the
    bike, whose send failed, is not seen after the check.  And a write that
    raises something else than [IOError] ends the marking at the first item:
    the lamp, whose send failed, is never marked. *)
Lemma attempted_item_is_not_seen :
  ~ attempted_at_most_once
      (world0 1000 1 Done (Fails (OtherError "boom")))
      (cfg0 ["bike"] 5 0) (state0 ∅) /\
  ~ attempted_at_most_once
      (world0 1000 1 (Fails (OtherError "surrogates not allowed"))
         (Fails (OtherError "boom")))
      (cfg0 ["bike"] 5 7) (state0 ∅).
Proof.
  split; intros H; unfold attempted_at_most_once in H; cbn zeta in H.
  - destruct (H bike) as [Hseen _].
    + apply elem_of_notifications. vm_compute. apply list_elem_of_here.
    + vm_compute in Hseen. discriminate Hseen.
  - destruct (H lamp) as [Hseen _].
    + apply elem_of_notifications. vm_compute.
      apply list_elem_of_further, list_elem_of_here.
    + vm_compute in Hseen. discriminate Hseen.
Qed.

Lemma mark_seen_upsert_witness :
  let W := world0 1000 1 Done Done in
  let s1 := post (mark_seen W "A" "Bike" true (state0 ∅)) in
  let s2 := post (mark_seen W "A" "Bicycle" false s1) in
  _listings s2 !! "A" =
    Some {| r_listing_id := "A"; r_title := "Bike"; first_seen := 1000;
            last_seen := 1002; notified := true |} /\
  _listings (post (mark_seen W "A" "Bicycle" false
      (state0 {["A" := record0 "A" 5 false]}))) !! "A" =
    Some {| r_listing_id := "A"; r_title := "Old"; first_seen := 5;
            last_seen := 1000; notified := false |}.
Proof.
  intros W s1 s2. split.
  - destruct (mark_seen_upsert W "A" "Bike" "Bicycle" true false (state0 ∅))
      as (_ & _ & Hnew & _).
    exact (proj2 (Hnew eq_refl)).
  - destruct (mark_seen_upsert W "A" "Bicycle" "Bicycle" false false
                (state0 {["A" := record0 "A" 5 false]}))
      as (_ & _ & _ & Hold & _).
    exact (proj2 (Hold (record0 "A" 5 false) eq_refl)).
Defined.



Lemma failed_check_is_not_retried_witness :
  let W := world0 1000 1 Done Done in
  let C := cfg0 ["bike"] 5 1000000000 in
  let s := with_running true (state0 ∅) in
  let overflow :=
    OverflowError "days=1000000000; must have magnitude <= 999999999" in
  res (check_cycle W C s) = Raise overflow /\
  res (loop_iteration C (check_once W C) 2 s) = Ok 0%Z /\
  sleeps (events (loop_iteration C (check_once W C) 2 s)) = [2; 1; 1; 300]%Z /\
  sleeps (events (monitor_loop W C (check_once W C) 3 0 s)) =
    [2; 1; 1; 300; 2; 300; 2; 300]%Z /\
  sleeps (events (monitor_loop world_flaky (cfg0 ["lamp"] 5 7)
                    (check_once world_flaky (cfg0 ["lamp"] 5 7)) 3 0 s)) =
    [300; 300; 300]%Z.
Proof.
  intros W C s overflow.
  assert (Hfail : res (check_cycle W C s) = Raise overflow)
    by (vm_compute; reflexivity).
  destruct (failed_check_is_not_retried W C 2 s overflow Hfail)
    as (_ & _ & Hres & _ & Hsleeps).
  split; [exact Hfail|]. split; [exact Hres|].
  split; [exact (eq_trans Hsleeps ltac:(vm_compute; reflexivity))|].
  split; vm_compute; reflexivity.
Defined.

Lemma merge_keeps_first_occurrence_witness :
  let W := world0 1000 1 Done Done in
  let C := cfg0 ["bike"; "lamp"] 5 7 in
  let s := state0 {["B" := record0 "B" 900 true]} in
  let results := [[bike; lamp; bike]; [bike; lamp; bike]] in
  scraper s = true /\
  results = term_results W (keywords C) (tick s) /\
  res (_search_all_keywords W C s) = Ok [bike; lamp] /\
  (notifications (events (check_once W C s))).*1 = [bike] /\
  length (filter (fun x => listing_id x = "A")
            (notifications (events (check_once W C s))).*1) = 1.
Proof.
  intros W C s results.
  destruct (merge_keeps_first_occurrence W C results s)
    as (_ & _ & _ & _ & Hcode).
  destruct (Hcode eq_refl eq_refl) as (Hbatch & Htried & Hone).
  split; [reflexivity|]. split; [reflexivity|].
  split; [exact (eq_trans Hbatch ltac:(vm_compute; reflexivity))|].
  split; [exact (eq_trans Htried ltac:(vm_compute; reflexivity))|].
  apply (Hone bike); [|reflexivity].
  apply list_elem_of_here.
Defined.

Lemma created_records_flagged_notified_witness :
  let W := world0 1000 1 Done (Fails (OtherError "boom")) in
  let C := cfg0 ["bike"] 5 7 in
  let o := check_once W C (state0 ∅) in
  _listings (state0 ∅) !! "A" = None /\
  notified <$> (_listings (post o) !! "A") = Some true.
Proof.
  intros W C o. split; [reflexivity|].
  destruct (_listings (post o) !! "A") as [r|] eqn:E.
  - cbn. f_equal.
    exact (created_records_flagged_notified W C (state0 ∅) "A" r eq_refl E).
  - vm_compute in E. discriminate E.
Defined.

Lemma run_invalid_config_leaves_running_witness :
  let W := world0 1000 1 Done Done in
  let C := cfg0 [] 5 7 in
  validate C <> [] /\
  res (run W C 3 (state0 ∅)) = Ok true /\
  searches (events (run W C 3 (state0 ∅))) = [] /\
  _running (post (run W C 3 (state0 ∅))) = true.
Proof.
  intros W C.
  assert (Hbad : validate C <> []) by discriminate.
  destruct (run_invalid_config_leaves_running W C (check_once W C) 3
              (state0 ∅) Hbad) as (Hres & Hev & _ & Hrun).
  split; [exact Hbad|]. split; [exact Hres|]. split; [|exact Hrun].
  unfold run. rewrite Hev. reflexivity.
Defined.

Lemma check_once_total_witness :
  let Wd := world0 1000 1 (Fails (OtherError "surrogates not allowed")) Done in
  let W := world0 1000 1 Done Done in
  let C := cfg0 ["bike"] 5 7 in
  res (check_once Wd C (state0 ∅)) = Ok 0 /\
  successes (events (check_once Wd C (state0 ∅))) = 2 /\
  res (check_once W C (state0 ∅)) = Ok 2.
Proof.
  intros Wd W C.
  destruct (check_once_total Wd C (state0 ∅)) as (_ & Hraise & _).
  destruct (check_once_total W C (state0 ∅)) as (_ & _ & Hret).
  split; [|split].
  - apply (Hraise (OtherError "surrogates not allowed")). vm_compute. reflexivity.
  - vm_compute. reflexivity.
  - apply (Hret 2). vm_compute. reflexivity.
Defined.

(** C7 as the specification words it fails: the bot refuses the bike, and
    the record of the bike is flagged as notified. *)
Lemma notified_flag_ignores_failed_send :
  ~ notified_iff_sent (world0 1000 1 Done (Fails (OtherError "boom")))
      (cfg0 ["bike"] 5 7) (state0 ∅).
Proof.
  intros H. unfold notified_iff_sent in H. cbn zeta in H.
  set (o := check_once _ _ _) in H.
  destruct (_listings (post o) !! "A") as [r|] eqn:E.
  - pose proof (H bike r eq_refl E) as [Hsent _].
    assert (Hflag : notified r = true).
    { vm_compute in E. injection E as <-. reflexivity. }
    specialize (Hsent Hflag). vm_compute in Hsent.
    apply elem_of_cons in Hsent as [Hx|Hsent]; [discriminate Hx|].
    apply elem_of_cons in Hsent as [Hx|Hsent]; [discriminate Hx|].
    by apply elem_of_nil in Hsent.
  - vm_compute in E. discriminate E.
Qed.

(** * Further properties of the code *)

(** ** The store, beyond the claims *)

Section StorageProperties.

Variable W : World.

Lemma mark_seen_eq (id ttl : string) (n : bool) (s : State) :
  mark_seen W id ttl n s =
    _save W (with_listings
               (upsert (datetime_now W (tick s)) id ttl n (_listings s))
               (next_tick s)).
Proof.
  unfold mark_seen, bind, ask, get, modify, upsert. cbn.
  destruct (_listings s !! id); cbn;
    match goal with |- context [_save W ?s'] =>
      destruct (_save W s') as [[[]|e] s2 e2]
    end; done.
Qed.

(** X1. After [mark_seen id], [has_seen id] is true and [get_new_listings]
    leaves [id] out, whatever the write to disk did; the answer of
    [has_seen] for every other id is as before. *)
Theorem mark_seen_makes_seen (id ttl : string) (n : bool) (s : State) :
  let s' := post (mark_seen W id ttl n s) in
  res (has_seen id s') = Ok true /\
  (forall k, k <> id -> res (has_seen k s') = res (has_seen k s)) /\
  (forall S : gset string,
     res (get_new_listings S s') = Ok ((S ∖ {[id]}) ∖ dom (_listings s))).
Proof.
  cbn zeta. rewrite mark_seen_post.
  assert (Hd : dom (_listings (next_tick (with_listings
            (upsert (datetime_now W (tick s)) id ttl n (_listings s))
            (next_tick s)))) = {[id]} ∪ dom (_listings s)).
  { cbn. apply upsert_dom. }
  split; [|split].
  - rewrite has_seen_eq. cbn [res]. f_equal. apply bool_decide_eq_true.
    rewrite Hd. set_solver.
  - intros k Hk. rewrite !has_seen_eq. cbn [res]. f_equal.
    apply bool_decide_ext. rewrite Hd. set_solver.
  - intros S. unfold get_new_listings, bind, get, ret. cbn [res post events].
    f_equal. cbn in Hd. cbn. rewrite Hd. set_solver.
Qed.

(** X2. [mark_seen] changes the store in memory before it writes, and what
    it writes is the whole store after the change.  A write that fails with
    [IOError] is logged and [mark_seen] returns; any other exception of the
    write leaves [mark_seen] with the change in memory already made. *)
Theorem mark_seen_persistence (id ttl : string) (n : bool) (s : State) :
  let o := mark_seen W id ttl n s in
  let m' := upsert (datetime_now W (tick s)) id ttl n (_listings s) in
  _listings (post o) = m' /\
  (file_write W (S (tick s)) = Done ->
     res o = Ok tt /\ events o = [EvSave m']) /\
  (forall msg, file_write W (S (tick s)) = Fails (IOError msg) ->
     res o = Ok tt /\
     events o = [EvLog ERROR ("Error saving storage file: " +:+ msg)]) /\
  (forall e, file_write W (S (tick s)) = Fails e -> is_IOError e = false ->
     res o = Raise e /\ events o = []).
Proof.
  cbn zeta. rewrite mark_seen_eq, save_eq. cbn [tick next_tick with_listings].
  split; [|split; [|split]].
  - destruct (file_write W (S (tick s))) as [|e]; [done|].
    destruct (is_IOError e); done.
  - intros ->. done.
  - intros msg ->. done.
  - intros e -> ->. done.
Qed.

(** X3. After [clear] the store is empty: [has_seen] is false for every id
    and every candidate is new, whatever the write did.  When the write
    succeeds the file holds the empty store. *)
Theorem clear_empties (s : State) :
  let o := clear W s in
  _listings (post o) = ∅ /\
  (forall id, res (has_seen id (post o)) = Ok false) /\
  (forall S : gset string, res (get_new_listings S (post o)) = Ok S) /\
  (file_write W (tick s) = Done ->
     res o = Ok tt /\
     events o = [EvSave ∅; EvLog INFO "Cleared all stored listings"]) /\
  (forall e, file_write W (tick s) = Fails e -> is_IOError e = false ->
     res o = Raise e /\ events o = []).
Proof.
  cbn zeta. unfold clear, bind, modify, log, emit. rewrite save_eq.
  cbn [tick next_tick with_listings _listings].
  assert (Hempty : forall o : Outcome unit,
            _listings (post o) = ∅ ->
            (forall id, res (has_seen id (post o)) = Ok false) /\
            (forall S : gset string, res (get_new_listings S (post o)) = Ok S)).
  { intros o Ho. split.
    - intros id. rewrite has_seen_eq. cbn [res]. f_equal.
      apply bool_decide_eq_false. rewrite Ho. set_solver.
    - intros S. unfold get_new_listings, bind, get, ret. cbn [res post events].
      f_equal. cbn. rewrite Ho. set_solver. }
  destruct (file_write W (tick s)) as [|e] eqn:E.
  - cbn. split; [done|]. destruct (Hempty (MkOutcome (Ok tt)
        (next_tick (with_listings ∅ s))
        [EvSave ∅; EvLog INFO "Cleared all stored listings"]) eq_refl)
      as [H1 H2].
    split; [exact H1|]. split; [exact H2|]. split; [done|]. intros e He. done.
  - destruct (is_IOError e) eqn:Eio; cbn.
    + split; [done|].
      destruct (Hempty (MkOutcome (Ok tt) (next_tick (with_listings ∅ s))
          [EvLog ERROR ("Error saving storage file: " +:+ exn_str e);
           EvLog INFO "Cleared all stored listings"]) eq_refl) as [H1 H2].
      split; [exact H1|]. split; [exact H2|]. split; [done|].
      intros e' [= <-] He. congruence.
    + split; [done|].
      destruct (Hempty (MkOutcome (Raise e) (next_tick (with_listings ∅ s)) [])
          eq_refl) as [H1 H2].
      split; [exact H1|]. split; [exact H2|]. split; [done|].
      intros e' [= <-] He. done.
Qed.

(** X4. [cleanup] touches the disk only when it removed something: a
    snapshot it writes is the store it leaves, and that store is smaller
    than the store it found.  With a cutoff that [datetime] can hold: when
    no record is older than the cutoff it returns 0 after reading the clock,
    nothing is written or logged and the store is as it was; when some
    record is older and the write succeeds, it writes the store that is left
    and returns the number of records removed. *)
Theorem cleanup_writes_only_removals (days : Z) (s : State) :
  let cutoff := (datetime_now W (tick s) - days * DAY)%Z in
  let o := cleanup W days s in
  (forall m, EvSave m ∈ events o ->
     m = _listings (post o) /\
     size (_listings (post o)) < size (_listings s)) /\
  ((Z.abs days <= 999999999)%Z ->
   (datetime_min <= cutoff <= datetime_max)%Z ->
   (forall id r, _listings s !! id = Some r -> (cutoff <= last_seen r)%Z) ->
   o = MkOutcome (Ok 0) (next_tick s) []) /\
  ((Z.abs days <= 999999999)%Z ->
   (datetime_min <= cutoff <= datetime_max)%Z ->
   forall id r, _listings s !! id = Some r -> (last_seen r < cutoff)%Z ->
     file_write W (S (tick s)) = Done ->
     exists k, 0 < k /\ res o = Ok k /\
       events o =
         [EvSave (_listings (post o));
          EvLog INFO ("Cleaned up " +:+ pretty k +:+ " old listings")]).
Proof.
  intros cutoff o. subst o. split; [|split].
  - intros m.
    unfold cleanup, bind, ask, get, modify, ret, raise, log, emit. cbn.
    destruct (minus_days _ _) as [e|c] eqn:Ec; cbn;
      [by intros ?%elem_of_nil|].
    pose proof (old_ids_length c (_listings s)) as Hlen.
    unfold old_ids in Hlen.
    destruct ((map_to_list _).*1) as [|k ks] eqn:E; cbn;
      [by intros ?%elem_of_nil|].
    rewrite save_eq. cbn [tick next_tick with_listings _listings].
    destruct (file_write W (S (tick s))) as [|e]; cbn.
    + intros Hm. apply elem_of_cons in Hm as [[= ->]|Hm].
      * split; [done|]. cbn in Hlen. lia.
      * apply elem_of_cons in Hm as [?|Hm]; [done|]. by apply elem_of_nil in Hm.
    + destruct (is_IOError e); cbn; intros Hm.
      * apply elem_of_cons in Hm as [?|Hm]; [done|].
        apply elem_of_cons in Hm as [?|Hm]; [done|]. by apply elem_of_nil in Hm.
      * by apply elem_of_nil in Hm.
  - intros Hdays Hrange Hfresh.
    assert (Hcut : minus_days (datetime_now W (tick s)) days = inr cutoff)
      by by apply minus_days_inr.
    assert (Hold : old_ids cutoff (_listings s) = []).
    { destruct (old_ids cutoff (_listings s)) as [|k ks] eqn:E; [done|].
      assert (Hk : k ∈ old_ids cutoff (_listings s)) by (rewrite E; left).
      apply elem_of_old_ids in Hk as (r & Hr & Hlt).
      specialize (Hfresh k r Hr). lia. }
    unfold cleanup, bind, ask, get, modify, ret, raise, log, emit. cbn.
    rewrite Hcut. cbn. unfold old_ids in Hold. rewrite Hold. cbn. done.
  - intros Hdays Hrange id r Hr Hlt Hw.
    assert (Hcut : minus_days (datetime_now W (tick s)) days = inr cutoff)
      by by apply minus_days_inr.
    assert (Hin : id ∈ old_ids cutoff (_listings s)).
    { apply elem_of_old_ids. eauto. }
    unfold cleanup, bind, ask, get, modify, ret, raise, log, emit. cbn.
    rewrite Hcut. cbn. unfold old_ids in Hin.
    destruct ((map_to_list _).*1) as [|k ks] eqn:E;
      [by apply elem_of_nil in Hin|].
    cbn. rewrite save_eq. cbn [tick next_tick with_listings]. rewrite Hw. cbn.
    exists (S (length ks)). split; [lia|]. done.
Qed.

End StorageProperties.

(** ** The check cycle, beyond the claims *)

Section CycleProperties.

Variable W : World.
Variable cfg : Config.

Lemma mark_all_store (new : list Listing) (s : State) :
  wp (for_each new (fun l => mark_seen W (listing_id l) (title l) true))
    (fun r s' e =>
       (forall id, (forall l, l ∈ new -> listing_id l <> id) ->
          _listings s' !! id = _listings s !! id) /\
       dom (_listings s') ⊆ dom (_listings s) ∪ list_to_set (listing_id <$> new)) s.
Proof.
  revert s. induction new as [|l new IH]; intros s; cbn [for_each].
  - wp_steps. split; [done|]. set_solver.
  - wp_step. eapply wp_mono; [apply mark_seen_spec|]. cbn beta.
    intros r s1 e1 (_ & Hst & _).
    assert (Hkeep : forall id, listing_id l <> id ->
              _listings s1 !! id = _listings s !! id).
    { intros id Hne. rewrite Hst. by apply upsert_lookup_ne. }
    assert (Hd : dom (_listings s1) = {[listing_id l]} ∪ dom (_listings s)).
    { rewrite Hst. apply upsert_dom. }
    destruct r as [[]|e]; cbn beta iota.
    + eapply wp_mono; [apply IH|]. cbn beta.
      intros r s2 e2 [Hk2 Hd2]. split.
      * intros id Hid. rewrite Hk2 by (intros l' Hl'; apply Hid; by right).
        apply Hkeep, Hid. by left.
      * rewrite fmap_cons, list_to_set_cons. set_solver.
    + split.
      * intros id Hid. apply Hkeep, Hid. by left.
      * rewrite fmap_cons, list_to_set_cons. set_solver.
Qed.

Lemma process_listings_store (ls : list Listing) (s : State) :
  wp (_process_listings W cfg ls)
    (fun r s' e =>
       (forall id r0, _listings s !! id = Some r0 ->
          _listings s' !! id = Some r0) /\
       dom (_listings s') ⊆
         dom (_listings s) ∪ list_to_set (listing_id <$> ls)) s.
Proof.
  unfold _process_listings. destruct ls as [|l0 ls0] eqn:Els.
  { wp_steps. split; [done|]. set_solver. }
  rewrite <- Els. clear Els l0 ls0.
  unfold get_new_listings. wp_steps.
  - split; [done|]. set_solver.
  - eapply wp_mono; [apply notify_loop_spec|]. cbn beta.
    intros r s1 e1 (_ & -> & Hst1). wp_step.
    eapply wp_mono; [apply mark_all_store|]. cbn beta.
    intros r s2 e2 [Hk2 Hd2]. rewrite Hst1 in *.
    set (new := filter _ ls) in *.
    assert (Hsub : (list_to_set (listing_id <$> new) : gset string) ⊆
                   list_to_set (listing_id <$> ls)).
    { intros x. rewrite !elem_of_list_to_set, !list_elem_of_fmap.
      intros (l & -> & Hl). exists l. split; [done|].
      by apply list_elem_of_filter in Hl as [_ ?]. }
    assert (Hkeep : forall id r0, _listings s !! id = Some r0 ->
              _listings s2 !! id = Some r0).
    { intros id r0 Hr0. rewrite Hk2; [done|].
      intros l Hl <-. apply list_elem_of_filter in Hl as [Hnew _].
      apply elem_of_difference in Hnew as [_ Hnot].
      apply Hnot, elem_of_dom. eauto. }
    destruct r as [[]|e]; cbn beta iota; [wp_steps|];
      (split; [exact Hkeep|set_solver]).
Qed.

(** X5. [_process_listings] changes no record that the store already has:
    an id seen before keeps its record as it is, [last_seen] included, even
    when the batch contains it again; and the only ids it adds are ids of the
    batch. *)
Theorem process_listings_keeps_records (ls : list Listing) (s : State) :
  let o := _process_listings W cfg ls s in
  (forall id r, _listings s !! id = Some r ->
     _listings (post o) !! id = Some r) /\
  (forall id, id ∈ dom (_listings (post o)) ->
     id ∈ dom (_listings s) \/ exists l, l ∈ ls /\ listing_id l = id).
Proof.
  cbn zeta. destruct (process_listings_store ls s) as [Hk Hd].
  split; [exact Hk|]. intros id Hid. apply Hd in Hid.
  apply elem_of_union in Hid as [?|Hid]; [by left|]. right.
  apply elem_of_list_to_set, list_elem_of_fmap in Hid as (l & -> & Hl). eauto.
Qed.

(** X6. When the disk fails with nothing but [IOError], the ids of the store
    after [_process_listings] are the ids before together with the ids of
    the batch, and the store has grown by the number of distinct ids of the
    batch that it did not have. *)
Theorem process_listings_grows_by_unseen (ls : list Listing) (s : State) :
  writes_handled W ->
  let o := _process_listings W cfg ls s in
  let ids : gset string := list_to_set (listing_id <$> ls) in
  dom (_listings (post o)) = dom (_listings s) ∪ ids /\
  size (_listings (post o)) =
    size (_listings s) + size (ids ∖ dom (_listings s)).
Proof.
  intros HW o ids.
  destruct (process_listings_store ls s) as [_ Hd].
  destruct (process_listings_spec W cfg ls s) as (_ & _ & _ & Hsub & Hr).
  destruct (Hr HW) as [_ Hseen]. fold o in Hd, Hsub, Hseen.
  assert (Hdom : dom (_listings (post o)) = dom (_listings s) ∪ ids).
  { apply set_eq. intros x. split.
    - intros Hx. by apply Hd.
    - intros [Hx|Hx]%elem_of_union; [by apply Hsub|].
      subst ids. apply elem_of_list_to_set, list_elem_of_fmap in Hx
        as (l & -> & Hl). by apply Hseen. }
  split; [exact Hdom|].
  rewrite <- !size_dom, Hdom.
  assert (Heq : dom (_listings s) ∪ ids =
                dom (_listings s) ∪ ids ∖ dom (_listings s)).
  { apply set_eq. intros x. rewrite !elem_of_union, elem_of_difference.
    destruct (decide (x ∈ dom (_listings s))); tauto. }
  rewrite Heq. apply size_union. set_solver.
Qed.

Lemma check_cycle_store (s : State) :
  wp (check_cycle W cfg)
    (fun r s' e =>
       forall id r0 r1, _listings s !! id = Some r0 ->
         _listings s' !! id = Some r1 -> r1 = r0) s.
Proof.
  unfold check_cycle. wp_step.
  eapply wp_mono; [apply search_all_keywords_spec|]. cbn beta.
  intros r s1 e1 ([all ->] & _ & Hst1). wp_steps.
  eapply wp_mono; [apply process_listings_store|]. cbn beta.
  intros r s2 e2 [Hk2 _]. rewrite Hst1 in *.
  destruct r as [n|e]; cbn beta iota.
  - wp_step.
    pose proof (cleanup_post_sub W (cleanup_days cfg) s2) as Hpost.
    unfold wp.
    destruct (cleanup W (cleanup_days cfg) s2) as [r s3 e3].
    cbn [res post events] in *.
    assert (Hdone : forall id r0 r1, _listings s !! id = Some r0 ->
              _listings s3 !! id = Some r1 -> r1 = r0).
    { intros id r0 r1 Hr0 Hr1. apply Hpost in Hr1.
      rewrite (Hk2 id r0 Hr0) in Hr1. congruence. }
    destruct r as [k|e]; cbn [res post events]; [wp_steps|]; exact Hdone.
  - intros id r0 r1 Hr0 Hr1. rewrite (Hk2 id r0 Hr0) in Hr1. congruence.
Qed.

(** X7. A check never refreshes a record: an id that has a record before
    [check_once] has the same record afterwards, with the [last_seen] it had,
    or none (when [cleanup] removed it), also when the search returned its
    listing again. *)
Theorem check_once_never_refreshes (s : State) (id : string)
    (r0 : ListingRecord) :
  _listings s !! id = Some r0 ->
  let o := check_once W cfg s in
  _listings (post o) !! id = Some r0 \/ _listings (post o) !! id = None.
Proof.
  intros Hr0 o. subst o. rewrite check_once_eq.
  pose proof (check_cycle_store s) as Hc. unfold wp in Hc.
  destruct (check_cycle W cfg s) as [[n|e] s1 e1]; cbn [res post events] in *;
    (destruct (_listings s1 !! id) as [r1|] eqn:E; [left|by right]);
    by rewrite (Hc id r0 r1 Hr0 E).
Qed.

(** X8. A check notifies only listings whose id had no record when the check
    began. *)
Theorem check_once_skips_seen (s : State) (l : Listing) (ok : bool) :
  let o := check_once W cfg s in
  EvNotify l ok ∈ events o ->
  _listings s !! listing_id l = None.
Proof.
  intros o Hev. destruct (check_once_spec W cfg s) as (_ & [all Hn] & _).
  fold o in Hn. apply elem_of_notifications in Hev.
  assert (Hl : l ∈ (notifications (events o)).*1).
  { apply list_elem_of_fmap. by exists (l, ok). }
  rewrite Hn in Hl. apply list_elem_of_filter in Hl as [Hnot _].
  by apply not_elem_of_dom.
Qed.

End CycleProperties.

(** ** The dispatcher, beyond the claims *)

Lemma transport_app (e1 e2 : list event) :
  transport (e1 ++ e2) = transport e1 ++ transport e2.
Proof. apply omap_app. Qed.

Section DispatcherProperties.

Variable W : World.
Variable cfg : Config.

Lemma send_listing_transport_spec (l : Listing) (s : State) :
  wp (send_listing W l)
    (fun r s' e =>
       (~ bot_available W s -> r = Ok false /\ transport e = []) /\
       (bot_available W s -> has_image l = false ->
          exists a, transport e = [EvSendMessage (ListingMessage l) a] /\
                    r = Ok (answered a)) /\
       (bot_available W s -> has_image l = true ->
          (transport e = [EvSendPhoto l Done] /\ r = Ok true) \/
          exists e0 a,
            transport e = [EvSendPhoto l (Fails e0);
                           EvSendMessage (ListingMessage l) a] /\
            r = Ok (answered a)) /\
       sleeps e = []) s.
Proof.
  unfold send_listing, _get_bot, send_photo, send_message, bot_available.
  wp_steps.
  all: repeat match goal with
       | H : _bot _ = _ |- _ => rewrite H
       | H : telegram_bot _ _ = _ |- _ => rewrite H
       end.
  all: split; [intros Hno; try (destruct Hno; by auto); done|].
  all: split; [intros Hav Himg; try done; try (destruct Hav; done);
               try (eexists; split; reflexivity)|].
  all: split; [|reflexivity].
  all: intros Hav Himg; try done; try (destruct Hav; done).
  all: try (left; split; reflexivity).
  all: right; eexists _, _; split; reflexivity.
Qed.

(** X9. [send_listing] calls the bot at most twice.  Without a bot (none
    built yet, and building one fails) it calls nothing and returns false.
    For a listing without image it sends the text once.  For a listing with
    an image it sends the photo, and the text only when the photo failed.
    The result is true exactly when the last call returned. *)
Theorem send_listing_transport (l : Listing) (s : State) :
  let o := send_listing W l s in
  (~ bot_available W s -> res o = Ok false /\ transport (events o) = []) /\
  (bot_available W s -> has_image l = false ->
     exists a, transport (events o) = [EvSendMessage (ListingMessage l) a] /\
               res o = Ok (answered a)) /\
  (bot_available W s -> has_image l = true ->
     (transport (events o) = [EvSendPhoto l Done] /\ res o = Ok true) \/
     exists e0 a,
       transport (events o) = [EvSendPhoto l (Fails e0);
                               EvSendMessage (ListingMessage l) a] /\
       res o = Ok (answered a)).
Proof.
  cbn zeta. destruct (send_listing_transport_spec l s) as (H1 & H2 & H3 & _).
  auto.
Qed.

Lemma notify_loop_sleeps (ls : list Listing) (c : nat) (s : State) :
  wp (notify_loop W cfg ls c)
    (fun r s' e => sleeps e = replicate (length ls) 1%Z) s.
Proof.
  revert c s. induction ls as [|l ls IH]; intros c s; cbn [notify_loop].
  - wp_steps. done.
  - wp_step. unfold notify_listing at 1. wp_step.
    assert (Hsend : wp (if telegram_enabled cfg then send_listing W l
                        else ret false)
              (fun r s' e => (exists ok, r = Ok ok) /\ sleeps e = []) s).
    { destruct (telegram_enabled cfg).
      - destruct (send_listing_spec W l s) as (ok & Hr & _).
        destruct (send_listing_transport_spec l s) as (_ & _ & _ & Hs).
        unfold wp. eauto.
      - wp_steps. eauto. }
    eapply wp_mono; [exact Hsend|]. cbn beta.
    intros r s1 e1 ([ok ->] & Hs1). wp_steps.
    eapply wp_mono; [apply IH|]. cbn beta. intros r s2 e2 Hs2.
    rewrite !sleeps_app, Hs1, Hs2. done.
Qed.

(** X10. [notify_listings] sleeps one second after every item, the last one
    and the failed ones included, and at no other time. *)
Theorem notify_listings_paces (ls : list Listing) (s : State) :
  sleeps (events (notify_listings W cfg ls s)) = replicate (length ls) 1%Z.
Proof. apply notify_loop_sleeps. Qed.

Lemma notify_loop_disabled (ls : list Listing) (c : nat) (s : State) :
  telegram_enabled cfg = false ->
  notify_loop W cfg ls c s =
    MkOutcome (Ok c) s (ls ≫= fun l => [EvNotify l false; EvSleep 1]).
Proof.
  intros Hoff. revert c. induction ls as [|l ls IH]; intros c; [done|].
  cbn [notify_loop]. unfold bind at 1, notify_listing at 1. rewrite Hoff.
  unfold bind at 1, ret at 1. cbn beta iota.
  unfold emit at 1, bind at 1, ret at 1. cbn beta iota.
  unfold bind at 1, sleep at 1, emit at 1. cbn beta iota. rewrite IH. done.
Qed.

Lemma mark_all_transport (new : list Listing) (s : State) :
  wp (for_each new (fun l => mark_seen W (listing_id l) (title l) true))
    (fun r s' e => transport e = []) s.
Proof.
  revert s. induction new as [|l new IH]; intros s; cbn [for_each].
  - wp_steps. done.
  - wp_step. unfold wp at 1. rewrite mark_seen_eq, save_eq.
    destruct (file_write W _) as [|e]; [|destruct (is_IOError e)];
      cbn [res post events].
    + eapply wp_mono; [apply IH|]. cbn beta. intros r s2 e2 H2.
      by rewrite transport_app, H2.
    + eapply wp_mono; [apply IH|]. cbn beta. intros r s2 e2 H2.
      by rewrite transport_app, H2.
    + done.
Qed.

Lemma cleanup_transport (days : Z) (s : State) :
  transport (events (cleanup W days s)) = [].
Proof.
  unfold cleanup, bind, ask, get, modify, ret, raise, log, emit. cbn.
  destruct (minus_days _ _) as [e|cutoff]; cbn; [done|].
  destruct (map_to_list _).*1 as [|k ks] eqn:E; cbn; [done|].
  rewrite save_eq. cbn.
  destruct (file_write W (S (tick s))) as [|e]; cbn; [done|].
  destruct (is_IOError e); done.
Qed.

Lemma search_loop_transport (kws : list string) (acc : list Listing) (s : State) :
  wp (search_loop W kws acc) (fun r s' e => transport e = []) s.
Proof.
  revert acc s. induction kws as [|kw kws IH]; intros acc s; cbn [search_loop].
  - wp_steps. done.
  - unfold scraper_search_call. wp_steps.
    all: eapply wp_mono; [apply IH|]; cbn beta; intros r s2 e2 H2;
      by rewrite !transport_app, H2.
Qed.

Lemma check_cycle_disabled (s : State) :
  telegram_enabled cfg = false ->
  wp (check_cycle W cfg)
    (fun r s' e => transport e = [] /\ (forall n, r = Ok n -> n = 0)) s.
Proof.
  intros Hoff. unfold check_cycle, _search_all_keywords. wp_step. wp_step.
  eapply wp_mono; [apply search_loop_transport|]. cbn beta.
  intros r s1 e1 H1. destruct r as [all|e]; cbn beta iota; [|done].
  wp_steps. unfold _process_listings.
  set (ls := unique_loop all ∅ []). destruct ls as [|l0 ls0] eqn:Els.
  { wp_steps. eapply wp_eq; [reflexivity|].
    pose proof (cleanup_transport (cleanup_days cfg) s1) as Hc.
    destruct (cleanup W (cleanup_days cfg) s1) as [[k|e'] s3 e3];
      cbn [res post events] in *; [wp_steps|];
      rewrite !transport_app, H1, Hc; split; try done.
    by intros n' [= <-]. }
  rewrite <- Els. clear Els l0 ls0.
  unfold get_new_listings. wp_steps.
  - eapply wp_eq; [reflexivity|].
    pose proof (cleanup_transport (cleanup_days cfg) s1) as Hc.
    destruct (cleanup W (cleanup_days cfg) s1) as [[k|e'] s3 e3];
      cbn [res post events] in *; [wp_steps|];
      rewrite !transport_app, H1, Hc; split; try done.
    by intros n' [= <-].
  - unfold notify_listings. eapply wp_eq; [by apply notify_loop_disabled|].
    cbn [res post events]. wp_step.
    eapply wp_mono; [apply mark_all_transport|]. cbn beta.
    intros r s2 e2 H2.
    assert (Hn : forall new : list Listing,
              transport (new ≫= fun l => [EvNotify l false; EvSleep 1]) = []).
    { intros new. induction new as [|x new IHn]; [done|]. cbn. exact IHn. }
    destruct r as [[]|e]; cbn beta iota; [wp_steps|].
    + eapply wp_eq; [reflexivity|].
      pose proof (cleanup_transport (cleanup_days cfg) s2) as Hc.
      destruct (cleanup W (cleanup_days cfg) s2) as [[k|e'] s3 e3];
        cbn [res post events] in *; [wp_steps|];
        rewrite !transport_app, H1, H2, Hc, Hn; split; try done.
      by intros n' [= <-].
    + rewrite !transport_app, H1, H2, Hn. done.
Qed.

(** X11. With Telegram disabled nothing reaches a bot: [notify_listings]
    records a failed notification for every item and returns 0,
    [send_status_message] returns false, and [check_once] returns 0 without a
    call into the bot.  [validate] accepts such a configuration when WhatsApp
    is enabled and a keyword is set. *)
Theorem telegram_disabled_sends_nothing :
  telegram_enabled cfg = false ->
  (forall ls s,
     notify_listings W cfg ls s =
       MkOutcome (Ok 0) s (ls ≫= fun l => [EvNotify l false; EvSleep 1])) /\
  (forall text s,
     send_status_message W cfg text s = MkOutcome (Ok false) s []) /\
  (forall s, res (check_once W cfg s) = Ok 0 /\
             transport (events (check_once W cfg s)) = []) /\
  (whatsapp_enabled cfg = true -> keywords cfg <> [] -> validate cfg = []).
Proof.
  intros Hoff. split; [|split; [|split]].
  - intros ls s. by apply notify_loop_disabled.
  - intros text s. unfold send_status_message. by rewrite Hoff.
  - intros s. rewrite check_once_eq.
    pose proof (check_cycle_disabled s Hoff) as [Ht Hr]. unfold wp in Ht, Hr.
    destruct (check_cycle W cfg s) as [[n|e] s1 e1]; cbn [res post events] in *.
    + rewrite (Hr n eq_refl). split; [done|]. exact Ht.
    + split; [done|].
      change (EvLog INFO "Starting marketplace check..." :: e1 ++ ?x)
        with ([EvLog INFO "Starting marketplace check..."] ++ e1 ++ x).
      rewrite !transport_app, Ht. done.
  - intros Hwa Hkw. unfold validate. rewrite Hoff, Hwa. cbn.
    destruct (keywords cfg); done.
Qed.

End DispatcherProperties.

(** ** The search, beyond the claims *)

Section SearchProperties.

Variable W : World.
Variable cfg : Config.

Lemma search_loop_searches (kws : list string) (acc : list Listing) (s : State) :
  wp (search_loop W kws acc)
    (fun r s' e =>
       scraper s' = scraper s /\
       searches e = (if scraper s then kws else []) /\
       (exists k, k <= length kws /\ sleeps e = replicate k 2%Z) /\
       (scraper s = false -> r = Ok acc /\ sleeps e = [])) s.
Proof.
  revert acc s. induction kws as [|kw kws IH]; intros acc s; cbn [search_loop].
  - wp_steps. split; [done|]. split; [by destruct (scraper s)|].
    split; [exists 0; done|]. done.
  - unfold scraper_search_call. wp_steps.
    + (* the search ended: it raised, or it returned *)
      eapply wp_mono; [apply IH|]. cbn beta.
      intros r s2 e2 (Hsc & Hse & (k & Hk & Hsl) & _).
      cbn [scraper next_tick] in *.
      match goal with H : scraper s = true |- _ => rewrite H in * end.
      split; [done|]. rewrite !searches_app, !sleeps_app, Hse, Hsl. cbn.
      split; [done|]. split; [|done].
      first [ exists (S k); split; [cbn; lia|done]
            | exists k; split; [cbn; lia|done] ].
    + eapply wp_mono; [apply IH|]. cbn beta.
      intros r s2 e2 (Hsc & Hse & (k & Hk & Hsl) & _).
      cbn [scraper next_tick] in *.
      match goal with H : scraper s = true |- _ => rewrite H in * end.
      split; [done|]. rewrite !searches_app, !sleeps_app, Hse, Hsl. cbn.
      split; [done|]. split; [|done].
      first [ exists (S k); split; [cbn; lia|done]
            | exists k; split; [cbn; lia|done] ].
    + (* no scraper *)
      eapply wp_mono; [apply IH|]. cbn beta.
      intros r s2 e2 (Hsc & Hse & _ & Hoff).
      match goal with H : scraper s = false |- _ => rewrite H in * end.
      destruct (Hoff eq_refl) as [-> Hsl].
      split; [done|]. rewrite !searches_app, !sleeps_app, Hse, Hsl. cbn.
      split; [done|]. split; [exists 0; split; [lia|done]|]. done.
Qed.

(** X12. With a scraper set, [_search_all_keywords] searches every
    configured keyword once, in the configured order, also after a search
    that raised, and returns; it sleeps two seconds right after each search
    that returned, not after one that raised, and at no other time.
    Without a scraper it searches nothing, sleeps nothing and returns the
    empty list. *)
Theorem search_covers_every_keyword (s : State) :
  let o := _search_all_keywords W cfg s in
  (exists ls, res o = Ok ls) /\
  (scraper s = true ->
     searches (events o) = keywords cfg /\
     searches_and_sleeps (events o) =
       search_pacing W (keywords cfg) (tick s)) /\
  (scraper s = false ->
     res o = Ok [] /\ searches (events o) = [] /\ sleeps (events o) = []).
Proof.
  cbn zeta.
  assert (H : wp (_search_all_keywords W cfg)
            (fun r s' e =>
               (exists ls, r = Ok ls) /\
               (scraper s = true -> searches e = keywords cfg) /\
               (scraper s = false -> r = Ok [] /\ searches e = [] /\
                                     sleeps e = [])) s).
  { unfold _search_all_keywords. wp_step.
    eapply wp_mono; [apply wp_and;
      [apply search_loop_spec|apply search_loop_searches]|]. cbn beta.
    intros r s1 e1 [([all ->] & _) (_ & Hse & Hsl & Hoff)]. wp_steps.
    rewrite app_nil_r. split; [eauto|]. split.
    - intros Hon. by rewrite Hon in Hse.
    - intros Hno. destruct (Hoff Hno) as [[= ->] Hs].
      rewrite Hno in Hse. done. }
  destruct H as (Hret & Hon & Hoff).
  split; [exact Hret|]. split; [|exact Hoff].
  intros Hscr. split; [by apply Hon|].
  by destruct (search_all_keywords_exact W cfg s Hscr) as [_ Hp].
Qed.

Lemma search_loop_provenance (K kws : list string) (acc : list Listing)
    (s : State) :
  (forall kw, kw ∈ kws -> kw ∈ K) ->
  wp (search_loop W kws acc)
    (fun r s' e =>
       forall all, r = Ok all ->
         forall l, l ∈ all -> l ∈ acc \/ from_scraper W K l) s.
Proof.
  revert acc s. induction kws as [|kw kws IH]; intros acc s HK;
    cbn [search_loop].
  - wp_steps. intros all [= <-] l Hl. by left.
  - assert (HK' : forall kw', kw' ∈ kws -> kw' ∈ K).
    { intros kw' Hkw'. apply HK. by right. }
    unfold scraper_search_call. wp_steps.
    + eapply wp_mono; [apply (IH _ _ HK')|]. cbn beta.
      intros r s2 e2 Hall all -> x Hx. by apply (Hall all eq_refl).
    + eapply wp_mono; [apply (IH _ _ HK')|]. cbn beta.
      intros r s2 e2 Hall all -> x Hx.
      destruct (Hall all eq_refl x Hx) as [Hacc|?]; [|by right].
      apply elem_of_app in Hacc as [?|Hnew]; [by left|]. right.
      eexists _, kw, _. split; [apply HK; by left|]. split; [eassumption|done].
    + eapply wp_mono; [apply (IH _ _ HK')|]. cbn beta.
      intros r s2 e2 Hall all -> x Hx. by apply (Hall all eq_refl).
Qed.

Lemma search_all_keywords_provenance (s : State) :
  wp (_search_all_keywords W cfg)
    (fun r s' e =>
       forall ls, r = Ok ls ->
         forall l, l ∈ ls -> from_scraper W (keywords cfg) l) s.
Proof.
  unfold _search_all_keywords. wp_step.
  eapply wp_mono; [apply (search_loop_provenance (keywords cfg)); auto|].
  cbn beta. intros r s1 e1 Hall. destruct r as [all|e]; cbn beta iota; [|done].
  wp_steps. intros ls [= <-] l Hl.
  rewrite unique_loop_first_by_id, app_nil_l in Hl.
  apply elem_of_first_by_id in Hl as [_ Hfind].
  apply List.find_some in Hfind as [Hin _]. apply list_elem_of_In in Hin.
  destruct (Hall all eq_refl l Hin) as [Hacc|?]; [|done].
  by apply elem_of_nil in Hacc.
Qed.

Lemma check_cycle_provenance (s : State) :
  wp (check_cycle W cfg)
    (fun r s' e =>
       forall l, l ∈ (notifications e).*1 ->
         from_scraper W (keywords cfg) l) s.
Proof.
  unfold check_cycle. wp_step.
  eapply wp_mono; [apply wp_and;
    [apply search_all_keywords_spec|apply search_all_keywords_provenance]|].
  cbn beta. intros r s1 e1 [([all ->] & Hn1 & Hst1) Hprov]. wp_steps.
  eapply wp_mono; [apply process_listings_spec|]. cbn beta.
  intros r s2 e2 (Hn2 & _).
  assert (Hfrom : forall l, l ∈ (notifications e2).*1 ->
            from_scraper W (keywords cfg) l).
  { intros l Hl. rewrite Hn2 in Hl. apply list_elem_of_filter in Hl as [_ Hl].
    by apply (Hprov _ eq_refl). }
  destruct r as [n|e]; cbn beta iota.
  - wp_step.
    pose proof (cleanup_silent W (cleanup_days cfg) s2) as Hn3. unfold wp.
    destruct (cleanup W (cleanup_days cfg) s2) as [[k|e'] s3 e3];
      cbn [res post events] in *; [wp_steps|];
      intros l; rewrite !notifications_app, Hn1, Hn3; cbn;
      rewrite ?app_nil_r; apply Hfrom.
  - intros l. rewrite !notifications_app, Hn1. cbn. apply Hfrom.
Qed.

(** X13. Nothing is invented: every listing that [_search_all_keywords]
    returns, and every listing that [check_once] tries to notify, was
    returned by the scraper for one of the configured keywords. *)
Theorem listings_come_from_scraper (s : State) :
  (forall ls l, res (_search_all_keywords W cfg s) = Ok ls -> l ∈ ls ->
     from_scraper W (keywords cfg) l) /\
  (forall l ok, EvNotify l ok ∈ events (check_once W cfg s) ->
     from_scraper W (keywords cfg) l).
Proof.
  split.
  - intros ls l Hr Hl. by apply (search_all_keywords_provenance s ls).
  - intros l ok Hev. rewrite check_once_eq in Hev.
    pose proof (check_cycle_provenance s) as Hc. unfold wp in Hc.
    apply Hc. apply list_elem_of_fmap. exists (l, ok). split; [done|].
    apply elem_of_notifications.
    destruct (check_cycle W cfg s) as [[n|e] s1 e1]; cbn [res post events] in *.
    + apply elem_of_cons in Hev as [?|?]; done.
    + apply elem_of_cons in Hev as [?|Hev]; [done|].
      apply elem_of_app in Hev as [?|Hev]; [done|].
      apply elem_of_cons in Hev as [?|Hev]; [done|]. by apply elem_of_nil in Hev.
Qed.

End SearchProperties.

(** ** The monitor loop, beyond the claims *)

Section LoopProperties.

Variable W : World.
Variable cfg : Config.

Lemma send_status_message_frame (text : string) (s : State) :
  wp (send_status_message W cfg text)
    (fun r s' e =>
       (exists ok, r = Ok ok) /\ scraper s' = scraper s /\
       _running s' = _running s /\ _listings s' = _listings s /\
       sleeps e = [] /\ searches e = [] /\ EvScraperClose ∉ e) s.
Proof.
  unfold send_status_message, telegram_send_message, _get_bot, send_message.
  wp_steps.
  all: split; [eauto|]; repeat (split; [reflexivity|]).
  all: cbn [app]; rewrite ?elem_of_cons, ?elem_of_nil; intuition congruence.
Qed.

Lemma shutdown_frame (s : State) :
  wp (shutdown W cfg)
    (fun r s' e =>
       r = Ok tt /\ _running s' = false /\ _listings s' = _listings s /\
       (EvScraperClose ∈ e <-> scraper s = true) /\
       sleeps e = [] /\ searches e = []) s.
Proof.
  unfold shutdown. wp_step. wp_step. wp_step. wp_step. wp_step. wp_step.
  wp_step. wp_step. wp_step. wp_step.
  all: wp_steps; (eapply wp_mono; [apply send_status_message_frame|]);
    cbn beta;
    intros r s1 e1 ([ok ->] & Hsc & Hrun & Hst & Hsl & Hse & Hno); wp_steps;
    (split; [done|]); (split; [done|]); (split; [done|]); split;
    [|rewrite !sleeps_app, !searches_app, Hsl, Hse; done].
  all: match goal with H : scraper (with_running false _) = _ |- _ =>
         cbn [scraper with_running] in H; rewrite H
       end.
  all: rewrite !elem_of_app, ?elem_of_cons, ?elem_of_nil.
  - split; [done|]. intros _. do 3 right. left. by left.
  - split; [|done]. intros [[]|[[?|[]]|[[]|[[]|[?|[?|[]]]]]]]; done.
Qed.

(** X14. [shutdown] always returns: it clears [_running], leaves the store
    alone, closes the scraper exactly when one is set, and neither sleeps
    nor searches, whether or not its status message could be sent. *)
Theorem shutdown_always_completes (s : State) :
  let o := shutdown W cfg s in
  res o = Ok tt /\ _running (post o) = false /\
  _listings (post o) = _listings s /\
  (EvScraperClose ∈ events o <-> scraper s = true) /\
  sleeps (events o) = [] /\ searches (events o) = [].
Proof. apply shutdown_frame. Qed.

Lemma monitor_loop_stop_signal (check : M nat) (fuel : nat) (rc : Z)
    (s : State) :
  stop_signal W (tick s) = true ->
  monitor_loop W cfg check (S fuel) rc s =
    MkOutcome (Ok true) (with_running false (next_tick s)) [].
Proof.
  intros Hs. cbn [monitor_loop].
  unfold bind, poll_stop, ask, stop, modify, get, ret. cbn. rewrite Hs. done.
Qed.

Lemma monitor_loop_not_running (check : M nat) (fuel : nat) (rc : Z)
    (s : State) :
  _running s = false ->
  res (monitor_loop W cfg check (S fuel) rc s) = Ok true /\
  events (monitor_loop W cfg check (S fuel) rc s) = [] /\
  _running (post (monitor_loop W cfg check (S fuel) rc s)) = false.
Proof.
  intros Hr. cbn [monitor_loop].
  unfold bind, poll_stop, ask, stop, modify, get, ret. cbn.
  destruct (stop_signal W (tick s)); cbn; rewrite ?Hr; done.
Qed.

(** X15. A stop request ends the loop at its next turn without another
    check: when the stop signal is up, or [_running] is already false, the
    loop ends with no event.  With a valid configuration and the stop signal
    up throughout, [run] returns without calling the check: it searches and
    sleeps nothing, closes the scraper and leaves [_running] false. *)
Theorem stop_request_ends_run (check : M nat) (fuel : nat) (s : State) :
  (forall rc, stop_signal W (tick s) = true ->
     monitor_loop W cfg check (S fuel) rc s =
       MkOutcome (Ok true) (with_running false (next_tick s)) []) /\
  (forall rc, _running s = false ->
     res (monitor_loop W cfg check (S fuel) rc s) = Ok true /\
     events (monitor_loop W cfg check (S fuel) rc s) = []) /\
  (validate cfg = [] -> (forall t, stop_signal W t = true) ->
     let o := run_with W cfg check (S fuel) s in
     res o = Ok true /\ _running (post o) = false /\
     searches (events o) = [] /\ sleeps (events o) = [] /\
     EvScraperClose ∈ events o /\
     forall check', run_with W cfg check' (S fuel) s = o).
Proof.
  split; [|split].
  - intros rc Hs. by apply monitor_loop_stop_signal.
  - intros rc Hr. destruct (monitor_loop_not_running check fuel rc s Hr)
      as (? & ? & _). done.
  - intros Hok Hstop.
    assert (Heq : forall check',
              run_with W cfg check' (S fuel) s =
              run_with W cfg check (S fuel) s).
    { intros check'. unfold run_with. rewrite Hok. unfold bind.
      cbn [modify log emit]. cbn beta iota.
      destruct (send_status_message W cfg _ _) as [[ok|e] s1 e1];
        cbn beta iota; [|done].
      unfold loop_then_shutdown, try_finally.
      rewrite !monitor_loop_stop_signal by apply Hstop. done. }
    assert (Hrun : wp (run_with W cfg check (S fuel))
              (fun r s' e =>
                 r = Ok true /\ _running s' = false /\ searches e = [] /\
                 sleeps e = [] /\ EvScraperClose ∈ e) s).
    { unfold run_with. rewrite Hok. wp_steps.
      eapply wp_mono; [apply send_status_message_frame|]. cbn beta.
      intros r s1 e1 ([ok ->] & Hsc & _ & _ & Hsl & Hse & _).
      unfold wp, loop_then_shutdown, try_finally.
      rewrite !monitor_loop_stop_signal by apply Hstop. cbn [res post events].
      pose proof (shutdown_frame (with_running false (next_tick s1)))
        as (Hr & Hrun & _ & Hclose & Hsl2 & Hse2).
      destruct (shutdown W cfg (with_running false (next_tick s1)))
        as [r2 s2 e2]. cbn [res post events] in *. subst r2.
      cbn [res post events].
      split; [done|]. split; [done|].
      rewrite !searches_app, !sleeps_app, Hsl, Hse, Hsl2, Hse2.
      split; [done|]. split; [done|].
      rewrite !elem_of_app. do 5 right. right. apply Hclose. exact Hsc. }
    cbn zeta. destruct Hrun as (H1 & H2 & H3 & H4 & H5).
    split; [exact H1|]. split; [exact H2|]. split; [exact H3|].
    split; [exact H4|]. split; [exact H5|]. exact Heq.
Qed.

(** X16. With [check_once] as its check the loop never backs off: every
    pass returns the retry counter 0, logs the next check and sleeps the
    configured interval, and the only other events are those of the check. *)
Theorem loop_never_backs_off (rc : Z) (s : State) :
  let c := check_once W cfg s in
  let o := loop_iteration cfg (check_once W cfg) rc s in
  res o = Ok 0%Z /\ post o = post c /\
  exists n, res c = Ok n /\
    events o =
      events c ++
      (if bool_decide (0 < n)
       then [EvLog INFO ("Sent " +:+ pretty n +:+ " notifications")]
       else []) ++
      [EvLog INFO ("Next check in " +:+ pretty (check_interval_seconds cfg) +:+
                   " seconds...");
       EvSleep (check_interval_seconds cfg)].
Proof.
  cbn zeta. pose proof (check_once_spec W cfg s) as ([n Hn] & _).
  destruct (check_once W cfg s) as [r s1 e1] eqn:Hc.
  cbn [res post events] in *. subst r.
  rewrite (loop_iteration_ok cfg (check_once W cfg) rc s s1 n e1 Hc).
  cbn [res post events]. split; [done|]. split; [done|]. eauto.
Qed.

End LoopProperties.

(** ** Escaping for Telegram *)

Lemma escape_pass_nil (text : string) : escape_pass [] text = text.
Proof.
  induction text as [|c text IH]; [done|]. cbn.
  destruct (decide (c ∈ [])) as [Hin|_]; [by apply elem_of_nil in Hin|].
  by rewrite IH.
Qed.

Lemma replace_char_escape_pass (p : list Ascii.ascii) (c : Ascii.ascii)
    (text : string) :
  c ∉ p -> c <> backslash ->
  replace_char c (String backslash (String c EmptyString)) (escape_pass p text) =
    escape_pass (p ++ [c]) text.
Proof.
  intros Hc Hb. induction text as [|x text IH]; [done|]. cbn.
  destruct (decide (x ∈ p)) as [Hx|Hx].
  - cbn. destruct (decide (backslash = c)) as [?|_]; [congruence|].
    destruct (decide (x = c)) as [->|_]; [done|].
    destruct (decide (x ∈ p ++ [c])) as [_|Hn]; [by rewrite IH|].
    destruct Hn. apply elem_of_app. by left.
  - cbn. destruct (decide (x = c)) as [->|Hne].
    + cbn. destruct (decide (c ∈ p ++ [c])) as [_|Hn]; [by rewrite IH|].
      destruct Hn. apply elem_of_app. right. by left.
    + destruct (decide (x ∈ p ++ [c])) as [Hin|_]; [|by rewrite IH].
      apply elem_of_app in Hin as [?|Hin]; [done|].
      apply elem_of_cons in Hin as [?|Hin]; [done|]. by apply elem_of_nil in Hin.
Qed.

Lemma foldl_replace_escape_pass (p cs : list Ascii.ascii) (text : string) :
  NoDup (p ++ cs) -> backslash ∉ cs ->
  foldl
    (fun text char =>
       replace_char char (String backslash (String char EmptyString)) text)
    (escape_pass p text) cs =
  escape_pass (p ++ cs) text.
Proof.
  revert p. induction cs as [|c cs IH]; intros p Hnd Hb.
  - by rewrite app_nil_r.
  - cbn [foldl]. rewrite replace_char_escape_pass.
    + rewrite IH.
      * by rewrite <- app_assoc.
      * by rewrite <- app_assoc.
      * intros Hin. apply Hb. by right.
    + apply NoDup_app in Hnd as (_ & Hdis & _). intros Hin.
      apply (Hdis c Hin). by left.
    + intros ->. apply Hb. by left.
Qed.

Lemma length_escape_pass (chars : list Ascii.ascii) (text : string) :
  String.length (escape_pass chars text) =
    String.length text + count_chars chars text.
Proof.
  induction text as [|c text IH]; [done|]. cbn.
  destruct (decide (c ∈ chars)); cbn; rewrite IH; lia.
Qed.

Lemma escape_pass_none (chars : list Ascii.ascii) (text : string) :
  count_chars chars text = 0 -> escape_pass chars text = text.
Proof.
  induction text as [|c text IH]; [done|]. cbn.
  destruct (decide (c ∈ chars)); [done|]. intros H0. by rewrite IH.
Qed.

(** X17. [_escape_markdown] works character by character, whatever the
    order of its eighteen replacements: each of the special characters gets
    one backslash in front of it and every other character, the backslash
    included, stays as it is.  So the result is longer by the number of
    special characters, and a text without them is returned unchanged. *)
Theorem escape_markdown_charwise (text : string) :
  _escape_markdown text = escape_pass special_chars text /\
  String.length (_escape_markdown text) =
    String.length text + count_chars special_chars text /\
  (count_chars special_chars text = 0 -> _escape_markdown text = text).
Proof.
  assert (Heq : _escape_markdown text = escape_pass special_chars text).
  { unfold _escape_markdown.
    rewrite <- (escape_pass_nil text) at 1.
    rewrite foldl_replace_escape_pass; [done| |].
    - apply (bool_decide_unpack _). by vm_compute.
    - apply (bool_decide_unpack _). by vm_compute. }
  split; [exact Heq|]. rewrite Heq. split.
  - apply length_escape_pass.
  - apply escape_pass_none.
Qed.

(** ** The search URL *)

Lemma count_chars_app (chars : list Ascii.ascii) (a b : string) :
  count_chars chars (a +:+ b) = count_chars chars a + count_chars chars b.
Proof.
  induction a as [|c a IH]; [done|].
  change (String c a +:+ b) with (String c (a +:+ b)).
  cbn [count_chars]. rewrite IH. lia.
Qed.

Lemma list_ascii_app (a b : string) :
  String.list_ascii_of_string (a +:+ b) =
    String.list_ascii_of_string a ++ String.list_ascii_of_string b.
Proof.
  induction a as [|c a IH]; [done|].
  change (String c a +:+ b) with (String c (a +:+ b)).
  cbn [String.list_ascii_of_string]. by rewrite IH.
Qed.

Lemma quote_byte_table :
  forallb
    (fun n =>
       let c := Ascii.ascii_of_nat n in
       match quote_byte c with
       | String a EmptyString =>
           if Ascii.eqb a "+" then Ascii.eqb c " "
           else Ascii.eqb a c && negb (Ascii.eqb a "%")
       | String p (String h (String l EmptyString)) =>
           Ascii.eqb p "%" &&
           Ascii.eqb (Ascii.ascii_of_nat (16 * hex_value h + hex_value l)) c
       | _ => false
       end &&
       forallb url_safe (String.list_ascii_of_string (quote_byte c)))
    (seq 0 256) = true.
Proof. vm_compute. reflexivity. Qed.

Lemma url_safe_not_separator (x : Ascii.ascii) :
  url_safe x = true -> x ∉ ["&"; "="]%char.
Proof.
  intros Hx Hin. apply elem_of_cons in Hin as [->|Hin]; [done|].
  apply elem_of_cons in Hin as [->|Hin]; [done|]. by apply elem_of_nil in Hin.
Qed.

Lemma count_chars_url_safe (text : string) :
  Forall (fun x => url_safe x = true) (String.list_ascii_of_string text) ->
  count_chars ["&"; "="]%char text = 0.
Proof.
  induction text as [|c text IH]; [done|].
  cbn [String.list_ascii_of_string count_chars]. intros Hall.
  apply Forall_cons in Hall as [Hc Hall].
  destruct (decide (c ∈ ["&"; "="]%char)) as [Hin|_].
  - by apply url_safe_not_separator in Hc.
  - by rewrite IH.
Qed.

Lemma quote_byte_spec (c : Ascii.ascii) :
  (forall rest, unquote_plus (quote_byte c +:+ rest) =
                  String c (unquote_plus rest)) /\
  count_chars ["&"; "="]%char (quote_byte c) = 0 /\
  Forall (fun x => url_safe x = true)
    (String.list_ascii_of_string (quote_byte c)).
Proof.
  pose proof quote_byte_table as Htab.
  rewrite forallb_forall in Htab.
  specialize (Htab (Ascii.nat_of_ascii c)).
  rewrite Ascii.ascii_nat_embedding in Htab. cbv zeta in Htab.
  apply andb_prop in Htab as [Hshape Hsafe].
  - assert (Hall : Forall (fun x => url_safe x = true)
                     (String.list_ascii_of_string (quote_byte c))).
    { apply Forall_forall. intros x Hx. rewrite forallb_forall in Hsafe.
      apply Hsafe. by apply list_elem_of_In. }
    split; [|split; [by apply count_chars_url_safe|exact Hall]].
    intros rest. destruct (quote_byte c) as [|a [|h [|l [|? ?]]]]; try done.
    + change (String a "" +:+ rest) with (String a rest).
      cbn [unquote_plus]. destruct (Ascii.eqb a "+") eqn:Hplus.
      * apply Ascii.eqb_eq in Hplus as ->. apply Ascii.eqb_eq in Hshape as ->.
        done.
      * apply andb_prop in Hshape as [Hac Hpct].
        apply Ascii.eqb_eq in Hac as ->.
        apply negb_true_iff in Hpct. by rewrite Hpct.
    + apply andb_prop in Hshape as [Hp Hhex].
      apply Ascii.eqb_eq in Hp as ->. apply Ascii.eqb_eq in Hhex.
      change (String "%" (String h (String l "")) +:+ rest)
        with (String "%" (String h (String l rest))).
      cbn [unquote_plus]. change (Ascii.eqb "%" "%") with true. cbv iota.
      by rewrite Hhex.
  - apply in_seq. pose proof (Ascii.nat_ascii_bounded c). lia.
Qed.

Lemma quote_plus_spec (text : string) :
  unquote_plus (quote_plus text) = text /\
  count_chars ["&"; "="]%char (quote_plus text) = 0 /\
  Forall (fun x => url_safe x = true)
    (String.list_ascii_of_string (quote_plus text)).
Proof.
  induction text as [|c text (IH1 & IH2 & IH3)]; [by repeat constructor|].
  destruct (quote_byte_spec c) as (H1 & H2 & H3). cbn [quote_plus].
  split; [|split].
  - by rewrite H1, IH1.
  - by rewrite count_chars_app, H2, IH2.
  - rewrite list_ascii_app. by apply Forall_app.
Qed.

Lemma count_chars_single (c : Ascii.ascii) (text : string) :
  count_chars ["&"; "="]%char text = 0 -> count_chars [c] text = 0 \/
  (c <> "&"%char /\ c <> "="%char).
Proof.
  intros H0.
  destruct (decide (c = "&"%char)) as [->|Hn1];
    [|destruct (decide (c = "="%char)) as [->|Hn2]; [|by right]]; left.
  - induction text as [|x text IH]; [done|]. cbn in *.
    destruct (decide (x ∈ ["&"; "="]%char)) as [?|Hx]; [done|].
    destruct (decide (x ∈ ["&"%char])) as [Hy|_].
    + destruct Hx. apply elem_of_cons in Hy as [->|Hy]; [by left|].
      by apply elem_of_nil in Hy.
    + by apply IH.
  - induction text as [|x text IH]; [done|]. cbn in *.
    destruct (decide (x ∈ ["&"; "="]%char)) as [?|Hx]; [done|].
    destruct (decide (x ∈ ["="%char])) as [Hy|_].
    + destruct Hx. apply elem_of_cons in Hy as [->|Hy]; [right; by left|].
      by apply elem_of_nil in Hy.
    + by apply IH.
Qed.

Lemma count_amp_quote_plus (text : string) :
  count_chars ["&"%char] (quote_plus text) = 0 /\
  count_chars ["="%char] (quote_plus text) = 0.
Proof.
  destruct (quote_plus_spec text) as (_ & H0 & _). split.
  - destruct (count_chars_single "&" _ H0) as [?|[? _]]; done.
  - destruct (count_chars_single "=" _ H0) as [?|[_ ?]]; done.
Qed.

Lemma urlencode_counts (params : list (string * string)) :
  params <> [] ->
  S (count_chars ["&"%char] (urlencode params)) = length params /\
  count_chars ["="%char] (urlencode params) = length params /\
  Forall (fun x => url_safe x = true \/ x = "&"%char \/ x = "="%char)
    (String.list_ascii_of_string (urlencode params)).
Proof.
  unfold urlencode. induction params as [|[k v] params IH]; [done|]. intros _.
  assert (Hkv : count_chars ["&"%char] (quote_plus k +:+ "=" +:+ quote_plus v) = 0 /\
                count_chars ["="%char] (quote_plus k +:+ "=" +:+ quote_plus v) = 1 /\
                Forall (fun x => url_safe x = true \/ x = "&"%char \/ x = "="%char)
                  (String.list_ascii_of_string
                     (quote_plus k +:+ "=" +:+ quote_plus v))).
  { destruct (count_amp_quote_plus k) as [Hk1 Hk2].
    destruct (count_amp_quote_plus v) as [Hv1 Hv2].
    destruct (quote_plus_spec k) as (_ & _ & Hk3).
    destruct (quote_plus_spec v) as (_ & _ & Hv3).
    rewrite !count_chars_app, !list_ascii_app, Hk1, Hk2, Hv1, Hv2.
    split; [done|]. split; [done|].
    apply Forall_app. split; [eapply Forall_impl; [exact Hk3|]; cbn; auto|].
    apply Forall_app. split; [constructor; [auto|constructor]|].
    eapply Forall_impl; [exact Hv3|]. cbn; auto. }
  destruct Hkv as (Ha & He & Hf).
  destruct params as [|kv' params'].
  - cbn [fmap list_fmap join fst snd length]. cbn [fst snd] in *.
    rewrite Ha, He. done.
  - destruct IH as (IHa & IHe & IHf); [done|].
    change (join "&" ((fun kv => quote_plus kv.1 +:+ "=" +:+ quote_plus kv.2)
                        <$> (k, v) :: kv' :: params'))
      with ((quote_plus k +:+ "=" +:+ quote_plus v) +:+ "&" +:+
            join "&" ((fun kv => quote_plus kv.1 +:+ "=" +:+ quote_plus kv.2)
                        <$> kv' :: params')).
    cbn [fst snd] in *.
    remember (quote_plus k +:+ "=" +:+ quote_plus v) as pair eqn:Hpair.
    remember (join "&" ((fun kv => quote_plus kv.1 +:+ "=" +:+ quote_plus kv.2)
                          <$> kv' :: params')) as others eqn:Hothers.
    rewrite !count_chars_app, !list_ascii_app.
    rewrite Ha, He, IHe. cbn [length] in *.
    assert (count_chars ["&"%char] "&" = 1) as -> by (vm_compute; reflexivity).
    assert (count_chars ["="%char] "&" = 0) as -> by (vm_compute; reflexivity).
    split; [lia|]. split; [lia|].
    apply Forall_app. split; [exact Hf|].
    apply Forall_app. split; [constructor; [auto|constructor]|exact IHf].
Qed.

(** X18. The search URL has the fixed parameters [query], [sortBy] and
    [exact], then [minPrice] and [maxPrice] when they are set, and nothing
    in the keyword can add or split a parameter: the query string has one
    [=] per parameter, one [&] between parameters, and otherwise only
    characters that need no escaping, [+] and [%].  The location and the
    radius passed to [_build_search_url] do not appear in the URL. *)
Theorem search_url_parameters (query location : string)
    (min_price max_price : option Z) (radius_miles : Z) (category : string) :
  let n := 3 + (if min_price then 1 else 0) + (if max_price then 1 else 0) in
  let qs := urlencode (search_params query min_price max_price) in
  _build_search_url query location min_price max_price radius_miles category =
    (if decide (category = "") then BASE_URL +:+ "/search"
     else BASE_URL +:+ "/" +:+ category) +:+ "?" +:+ qs /\
  S (count_chars ["&"%char] qs) = n /\
  count_chars ["="%char] qs = n /\
  Forall (fun x => url_safe x = true \/ x = "&"%char \/ x = "="%char)
    (String.list_ascii_of_string qs) /\
  (forall location' radius_miles',
     _build_search_url query location' min_price max_price radius_miles'
       category =
     _build_search_url query location min_price max_price radius_miles
       category).
Proof.
  intros n qs. split; [done|].
  assert (Hlen : length (search_params query min_price max_price) = n).
  { subst n. unfold search_params.
    destruct min_price, max_price; rewrite ?length_app; done. }
  assert (Hne : search_params query min_price max_price <> []).
  { intros H0. rewrite H0 in Hlen. subst n. cbn in Hlen. lia. }
  destruct (urlencode_counts _ Hne) as (Ha & He & Hf). fold qs in Ha, He, Hf.
  rewrite Hlen in Ha, He. done.
Qed.

Lemma quote_plus_inj (text1 text2 : string) :
  quote_plus text1 = quote_plus text2 -> text1 = text2.
Proof.
  intros Heq.
  destruct (quote_plus_spec text1) as (H1 & _).
  destruct (quote_plus_spec text2) as (H2 & _).
  rewrite <- H1, <- H2. by rewrite Heq.
Qed.

Lemma string_app_inv_tail (a b t : string) : a +:+ t = b +:+ t -> a = b.
Proof.
  intros Heq. apply (f_equal String.list_ascii_of_string) in Heq.
  rewrite !list_ascii_app in Heq. apply app_inv_tail in Heq.
  rewrite <- (String.string_of_list_ascii_of_string a).
  rewrite <- (String.string_of_list_ascii_of_string b). by rewrite Heq.
Qed.

(** X19. Two keywords that differ give two search URLs that differ, whatever
    the prices and the category: the keyword can be read back from the URL. *)
Theorem search_url_distinguishes_keywords (query1 query2 location1 location2 : string)
    (min_price max_price : option Z) (radius1 radius2 : Z) (category : string) :
  _build_search_url query1 location1 min_price max_price radius1 category =
  _build_search_url query2 location2 min_price max_price radius2 category ->
  query1 = query2.
Proof.
  unfold _build_search_url, urlencode, search_params. intros Heq.
  apply (inj (String.app _)) in Heq. apply (inj (String.app _)) in Heq.
  apply quote_plus_inj.
  apply (inj (String.app "=")), (inj (String.app (quote_plus "query"))).
  destruct min_price, max_price; cbn [app] in Heq;
    eapply string_app_inv_tail; exact Heq.
Qed.

(** ** The further properties on concrete worlds *)

Lemma mark_seen_makes_seen_witness :
  let W := world0 1000 1 (Fails (IOError "disk full")) Done in
  let s' := post (mark_seen W "A" "Bike" true (state0 ∅)) in
  "B" <> "A" /\
  res (has_seen "A" s') = Ok true /\
  res (has_seen "B" s') = Ok false.
Proof.
  intros W s'.
  assert (Hne : "B" <> "A") by discriminate.
  destruct (mark_seen_makes_seen W "A" "Bike" true (state0 ∅))
    as (Hseen & Hother & _).
  split; [exact Hne|]. split; [exact Hseen|].
  exact (eq_trans (Hother "B" Hne) eq_refl).
Defined.

Lemma mark_seen_persistence_witness :
  let Wio := world0 1000 1 (Fails (IOError "disk full")) Done in
  let Wty := world0 1000 1 (Fails (OtherError "not serializable")) Done in
  let o := mark_seen Wio "A" "Bike" true (state0 ∅) in
  let o' := mark_seen Wty "A" "Bike" true (state0 ∅) in
  file_write Wio 1 = Fails (IOError "disk full") /\
  res o = Ok tt /\
  events o = [EvLog ERROR "Error saving storage file: disk full"] /\
  res o' = Raise (OtherError "not serializable") /\
  events o' = [] /\
  dom (_listings (post o')) = {["A"]}.
Proof.
  intros Wio Wty o o'.
  destruct (mark_seen_persistence Wio "A" "Bike" true (state0 ∅))
    as (_ & _ & Hio & _).
  destruct (mark_seen_persistence Wty "A" "Bike" true (state0 ∅))
    as (Hmem & _ & _ & Hother).
  destruct (Hio "disk full" eq_refl) as [Hr He].
  destruct (Hother (OtherError "not serializable") eq_refl eq_refl) as [Hr' He'].
  split; [reflexivity|]. split; [exact Hr|]. split; [exact He|].
  split; [exact Hr'|]. split; [exact He'|].
  fold o' in Hmem. rewrite Hmem. apply upsert_dom.
Defined.

Lemma clear_empties_witness :
  let W := world0 1000 1 Done Done in
  let Wty := world0 1000 1 (Fails (OtherError "read-only")) Done in
  let s := state0 {["A" := record0 "A" 5 true]} in
  file_write W 0 = Done /\
  res (clear W s) = Ok tt /\
  events (clear W s) = [EvSave ∅; EvLog INFO "Cleared all stored listings"] /\
  res (has_seen "A" (post (clear W s))) = Ok false /\
  res (clear Wty s) = Raise (OtherError "read-only") /\
  res (has_seen "A" (post (clear Wty s))) = Ok false.
Proof.
  intros W Wty s.
  destruct (clear_empties W s) as (_ & Hseen & _ & Hdone & _).
  destruct (clear_empties Wty s) as (_ & Hseen' & _ & _ & Hraise).
  destruct (Hdone eq_refl) as [Hr He].
  split; [reflexivity|]. split; [exact Hr|]. split; [exact He|].
  split; [exact (Hseen "A")|].
  split; [exact (proj1 (Hraise (OtherError "read-only") eq_refl eq_refl))|].
  exact (Hseen' "A").
Defined.

Lemma cleanup_writes_only_removals_witness :
  let W := world0 (10 * DAY) 1 Done Done in
  let fresh : gmap string ListingRecord := {["A" := record0 "A" (3 * DAY) false]} in
  let stale : gmap string ListingRecord :=
    <["B" := record0 "B" (3 * DAY - 1) true]> fresh in
  (Z.abs 7 <= 999999999)%Z /\
  (datetime_min <= 10 * DAY - 7 * DAY <= datetime_max)%Z /\
  cleanup W 7 (state0 fresh) = MkOutcome (Ok 0) (next_tick (state0 fresh)) [] /\
  (exists k, 0 < k /\ res (cleanup W 7 (state0 stale)) = Ok k /\
     events (cleanup W 7 (state0 stale)) =
       [EvSave (_listings (post (cleanup W 7 (state0 stale))));
        EvLog INFO ("Cleaned up " +:+ pretty k +:+ " old listings")]) /\
  EvSave fresh ∈ events (cleanup W 7 (state0 stale)) /\
  size (_listings (post (cleanup W 7 (state0 stale)))) <
    size (_listings (state0 stale)).
Proof.
  intros W fresh stale.
  assert (Hdays : (Z.abs 7 <= 999999999)%Z) by (cbn; lia).
  assert (Hrange : (datetime_min <= 10 * DAY - 7 * DAY <= datetime_max)%Z)
    by (unfold datetime_min, datetime_max, DAY; lia).
  assert (Hsave : EvSave fresh ∈ events (cleanup W 7 (state0 stale))).
  { vm_compute. apply list_elem_of_here. }
  destruct (cleanup_writes_only_removals W 7 (state0 fresh)) as (_ & Hnone & _).
  destruct (cleanup_writes_only_removals W 7 (state0 stale))
    as (Hwrite & _ & Hsome).
  split; [exact Hdays|]. split; [exact Hrange|]. split; [|split; [|split]].
  - apply (Hnone Hdays Hrange). intros id r Hr.
    unfold fresh in Hr. cbn [state0 _listings] in Hr.
    apply lookup_singleton_Some in Hr as [_ <-]. vm_compute. discriminate.
  - apply (Hsome Hdays Hrange "B" (record0 "B" (3 * DAY - 1) true));
      reflexivity.
  - exact Hsave.
  - exact (proj2 (Hwrite fresh Hsave)).
Defined.

Lemma process_listings_keeps_records_witness :
  let W := world0 1000 1 Done Done in
  let C := cfg0 ["bike"] 5 7 in
  let s := state0 {["A" := record0 "A" 5 false]} in
  let o := _process_listings W C [bike; lamp; bike] s in
  _listings s !! "A" = Some (record0 "A" 5 false) /\
  _listings (post o) !! "A" = Some (record0 "A" 5 false).
Proof.
  intros W C s o.
  destruct (process_listings_keeps_records W C [bike; lamp; bike] s)
    as [Hkeep _].
  split; [reflexivity|]. exact (Hkeep "A" (record0 "A" 5 false) eq_refl).
Defined.

Lemma process_listings_grows_by_unseen_witness :
  let W := world0 1000 1 (Fails (IOError "disk full")) Done in
  let C := cfg0 ["bike"] 5 7 in
  let s := state0 {["A" := record0 "A" 5 false]} in
  let o := _process_listings W C [bike; lamp; bike] s in
  writes_handled W /\
  dom (_listings (post o)) = {["A"; "B"]} /\
  size (_listings (post o)) = 2.
Proof.
  intros W C s o.
  assert (HW : writes_handled W).
  { intros t e H. injection H as <-. reflexivity. }
  destruct (process_listings_grows_by_unseen W C [bike; lamp; bike] s HW)
    as [Hdom Hsize].
  split; [exact HW|]. split.
  - exact (eq_trans Hdom ltac:(vm_compute; reflexivity)).
  - exact (eq_trans Hsize ltac:(vm_compute; reflexivity)).
Defined.

Lemma check_once_never_refreshes_witness :
  let W := world0 1000 1 Done Done in
  let C := cfg0 ["bike"] 5 7 in
  let s := state0 {["A" := record0 "A" 900 false]} in
  _listings s !! "A" = Some (record0 "A" 900 false) /\
  (_listings (post (check_once W C s)) !! "A" = Some (record0 "A" 900 false) \/
   _listings (post (check_once W C s)) !! "A" = None).
Proof.
  intros W C s. split; [reflexivity|].
  exact (check_once_never_refreshes W C s "A" (record0 "A" 900 false) eq_refl).
Defined.

Lemma check_once_skips_seen_witness :
  let W := world0 1000 1 Done Done in
  let C := cfg0 ["bike"] 5 7 in
  let s := state0 {["A" := record0 "A" 900 false]} in
  EvNotify lamp true ∈ events (check_once W C s) /\
  _listings s !! "B" = None.
Proof.
  intros W C s.
  assert (Hev : EvNotify lamp true ∈ events (check_once W C s)).
  { apply elem_of_notifications. vm_compute. apply list_elem_of_here. }
  split; [exact Hev|]. exact (check_once_skips_seen W C s lamp true Hev).
Defined.

Lemma send_listing_transport_witness :
  let W := world0 1000 1 Done (Fails (OtherError "timed out")) in
  ~ bot_available world_no_bot (state0 ∅) /\
  res (send_listing world_no_bot lamp (state0 ∅)) = Ok false /\
  transport (events (send_listing world_no_bot lamp (state0 ∅))) = [] /\
  bot_available W (state0 ∅) /\
  has_image bike = false /\
  (exists a,
     transport (events (send_listing W bike (state0 ∅))) =
       [EvSendMessage (ListingMessage bike) a] /\
     res (send_listing W bike (state0 ∅)) = Ok (answered a)) /\
  has_image lamp = true /\
  length (transport (events (send_listing W lamp (state0 ∅)))) = 2.
Proof.
  intros W.
  assert (Hno : ~ bot_available world_no_bot (state0 ∅)).
  { intros [H|H]; discriminate H. }
  assert (Hbot : bot_available W (state0 ∅)) by (right; reflexivity).
  destruct (send_listing_transport world_no_bot lamp (state0 ∅)) as (Hnone & _).
  destruct (send_listing_transport W bike (state0 ∅)) as (_ & Htext & _).
  destruct (send_listing_transport W lamp (state0 ∅)) as (_ & _ & Hphoto).
  destruct (Hnone Hno) as [Hr He].
  split; [exact Hno|]. split; [exact Hr|]. split; [exact He|].
  split; [exact Hbot|]. split; [reflexivity|].
  split; [exact (Htext Hbot eq_refl)|]. split; [reflexivity|].
  destruct (Hphoto Hbot eq_refl) as [[Hsent _]|(e0 & a & Hboth & _)].
  - vm_compute in Hsent. discriminate Hsent.
  - by rewrite Hboth.
Defined.

Lemma telegram_disabled_sends_nothing_witness :
  let W := world0 1000 1 Done Done in
  let C := cfg_whatsapp ["bike"] in
  telegram_enabled C = false /\
  notify_listings W C [bike; lamp] (state0 ∅) =
    MkOutcome (Ok 0) (state0 ∅)
      [EvNotify bike false; EvSleep 1; EvNotify lamp false; EvSleep 1] /\
  res (check_once W C (state0 ∅)) = Ok 0 /\
  transport (events (check_once W C (state0 ∅))) = [] /\
  validate C = [].
Proof.
  intros W C.
  destruct (telegram_disabled_sends_nothing W C eq_refl)
    as (Hnotify & _ & Hcheck & Hvalid).
  split; [reflexivity|]. split; [exact (Hnotify [bike; lamp] (state0 ∅))|].
  split; [exact (proj1 (Hcheck (state0 ∅)))|].
  split; [exact (proj2 (Hcheck (state0 ∅)))|].
  apply Hvalid; [reflexivity|discriminate].
Defined.

Lemma search_covers_every_keyword_witness :
  let C := cfg0 ["bike"; "lamp"; "desk"] 5 7 in
  let s := state0 ∅ in
  scraper s = true /\
  searches (events (_search_all_keywords world_flaky C s)) =
    ["bike"; "lamp"; "desk"] /\
  searches_and_sleeps (events (_search_all_keywords world_flaky C s)) =
    [EvSearch "bike"; EvSleep 2; EvSearch "lamp"; EvSearch "desk"; EvSleep 2] /\
  scraper (with_scraper false s) = false /\
  res (_search_all_keywords world_flaky C (with_scraper false s)) = Ok [].
Proof.
  intros C s.
  destruct (search_covers_every_keyword world_flaky C s) as (_ & Hall & _).
  destruct (search_covers_every_keyword world_flaky C (with_scraper false s))
    as (_ & _ & Hnone).
  destruct (Hall eq_refl) as [Hsearch Hpace].
  split; [reflexivity|]. split; [exact Hsearch|]. split; [exact Hpace|].
  split; [reflexivity|]. exact (proj1 (Hnone eq_refl)).
Defined.

Lemma listings_come_from_scraper_witness :
  let W := world0 1000 1 Done Done in
  let C := cfg0 ["bike"] 5 7 in
  EvNotify lamp true ∈ events (check_once W C (state0 ∅)) /\
  from_scraper W ["bike"] lamp.
Proof.
  intros W C.
  assert (Hev : EvNotify lamp true ∈ events (check_once W C (state0 ∅))).
  { apply elem_of_notifications. vm_compute.
    apply list_elem_of_further, list_elem_of_here. }
  destruct (listings_come_from_scraper W C (state0 ∅)) as [_ Hnotified].
  split; [exact Hev|]. exact (Hnotified lamp true Hev).
Defined.

Lemma stop_request_ends_run_witness :
  let C := cfg0 ["bike"] 5 7 in
  let o := run world_stopped C 3 (state0 ∅) in
  validate C = [] /\
  (forall t, stop_signal world_stopped t = true) /\
  res o = Ok true /\ _running (post o) = false /\
  searches (events o) = [] /\ sleeps (events o) = [] /\
  EvScraperClose ∈ events o.
Proof.
  intros C o.
  destruct (stop_request_ends_run world_stopped C (check_once world_stopped C)
              2 (state0 ∅)) as (_ & _ & Hrun).
  destruct (Hrun eq_refl (fun _ => eq_refl))
    as (Hres & Hstop & Hsearch & Hsleep & Hclose & _).
  split; [reflexivity|]. split; [intros t; reflexivity|].
  split; [exact Hres|]. split; [exact Hstop|]. split; [exact Hsearch|].
  split; [exact Hsleep|]. exact Hclose.
Defined.

Lemma escape_markdown_charwise_witness :
  count_chars special_chars "Bike 10" = 0 /\
  _escape_markdown "Bike 10" = "Bike 10".
Proof.
  destruct (escape_markdown_charwise "Bike 10") as (_ & _ & Hplain).
  split; [reflexivity|]. exact (Hplain eq_refl).
Defined.

Lemma search_url_distinguishes_keywords_witness :
  _build_search_url "red bike" "Denver" None (Some 50%Z) 40 "" =
  _build_search_url "red bike" "Boulder" None (Some 50%Z) 10 "" /\
  "red bike" = "red bike".
Proof.
  assert (Heq : _build_search_url "red bike" "Denver" None (Some 50%Z) 40 "" =
                _build_search_url "red bike" "Boulder" None (Some 50%Z) 10 "")
    by reflexivity.
  split; [exact Heq|].
  exact (search_url_distinguishes_keywords "red bike" "red bike" "Denver"
           "Boulder" None (Some 50%Z) 40 10 "" Heq).
Defined.
